(** * ocpsvg.ocp: a shallow embedding of the OCP helper module

    The Python module [src/ocpsvg/ocp.py] is a layer of helpers over the
    OpenCascade kernel (through its OCP bindings): coercion of tuples to
    points, closing of wires, construction of faces from a soup of nested
    wires, and conversion of curves to Bezier segments.

    The embedding follows the source function by function.  Python
    exceptions are the [Raise] results of a small error monad; generators
    are the finite lists of the values they yield; a Python [float] is a
    primitive binary64 float.  The kernel itself is not part of the
    repository: each module below takes the kernel operations it calls as
    the fields of an interface record, and the theorems hold for every
    implementation of the interface (with the kernel contracts they need
    stated as hypotheses).  An operation that the source calls inside a
    [try], or whose exception a statement is about, gives a result that
    tells how it ended; the other operations are functions. *)

From Stdlib Require Import PrimFloat FloatOps FloatAxioms.
From stdpp Require Import base option list gmap sets strings.

(** ** Exceptions and results *)

(** The exceptions of Python that the module meets, and those of the
    OCP bindings, known by the name of their class. *)
Inductive exn : Type :=
| ValueError (msg : string)
| StopIteration
| IndexError
| KernelError (name : string).

Inductive result (A : Type) : Type :=
| Ok (a : A)
| Raise (e : exn).
Arguments Ok {A} a.
Arguments Raise {A} e.

(** The error monad, with stdpp's [x ← r; k] notation. *)
#[global] Instance result_ret : MRet result := λ A a, Ok a.
#[global] Instance result_bind : MBind result := λ A B k r,
  match r with
  | Ok a => k a
  | Raise e => Raise e
  end.

Definition raises {A : Type} (r : result A) : Prop :=
  ∃ e, r = Raise e.

Definition is_ValueError {A : Type} (r : result A) : Prop :=
  ∃ msg, r = Raise (ValueError msg).

(** [mapM f l] runs [f] over [l] from left to right and stops at the
    first exception, as a list comprehension over a generator does. *)
Fixpoint mapM {A B : Type} (f : A → result B) (l : list A) : result (list B) :=
  match l with
  | [] => Ok []
  | a :: l' => b ← f a; bs ← mapM f l'; Ok (b :: bs)
  end.

(** ** Points, vectors and their coercion (lines 72-105) *)

Module Coerce.

Record gp_Pnt : Type := Pnt { Pnt_X : float; Pnt_Y : float; Pnt_Z : float }.
Record gp_Vec : Type := Vec { Vec_X : float; Vec_Y : float; Vec_Z : float }.
Record gp_XYZ : Type := XYZ { XYZ_X : float; XYZ_Y : float; XYZ_Z : float }.
Record gp_Dir : Type := Dir { Dir_X : float; Dir_Y : float; Dir_Z : float }.

(** [VecLike]: one of the four kernel classes, or a Python tuple of
    floats (of any length: the annotation promises 2 or 3, the code
    checks it). *)
Inductive VecLike : Type :=
| of_Pnt (p : gp_Pnt)
| of_Vec (v : gp_Vec)
| of_XYZ (c : gp_XYZ)
| of_Dir (d : gp_Dir)
| of_tuple (t : list float).

Definition as_triple (p : VecLike) : result (float * float * float) :=
  match p with
  | of_Pnt q => Ok (Pnt_X q, Pnt_Y q, Pnt_Z q)
  | of_Vec q => Ok (Vec_X q, Vec_Y q, Vec_Z q)
  | of_XYZ q => Ok (XYZ_X q, XYZ_Y q, XYZ_Z q)
  | of_Dir q => Ok (Dir_X q, Dir_Y q, Dir_Z q)
  | of_tuple t =>
      match t with
      | [x; y; z] => Ok (x, y, z)             (* len(p) == 3: p[:3] *)
      | [x; y] => Ok (x, y, 0.0%float)        (* len(p) == 2: *p[:2], 0.0 *)
      | _ => Raise (ValueError "cannot make point")
      end
  end.

Section Constructors.

(** The constructor [gp_Dir(x, y, z)] normalises its argument in the
    kernel (and refuses the null vector): it is a parameter. *)
Variable gp_Dir_new : float → float → float → result gp_Dir.

Definition as_Pnt (p : VecLike) : result gp_Pnt :=
  match p with
  | of_Pnt q => Ok q
  | _ => '(x, y, z) ← as_triple p; Ok (Pnt x y z)
  end.

Definition as_Vec (v : VecLike) : result gp_Vec :=
  match v with
  | of_Vec q => Ok q
  | _ => '(x, y, z) ← as_triple v; Ok (Vec x y z)
  end.

Definition as_Dir (d : VecLike) : result gp_Dir :=
  match d with
  | of_Dir q => Ok q
  | _ => '(x, y, z) ← as_triple d; gp_Dir_new x y z
  end.

End Constructors.

End Coerce.

(** ** Python containers and built-ins used by the module *)

Module Py.

(** The iterator protocol: [next(it)] on an exhausted iterator raises
    [StopIteration]. An iterator over a finite sequence is the list of
    the items still to come. *)
Definition next {A : Type} (it : list A) : result (A * list A) :=
  match it with
  | [] => Raise StopIteration
  | x :: it' => Ok (x, it')
  end.

(** [enumerate(l)]. *)
Definition enumerate {A : Type} (l : list A) : list (nat * A) := imap pair l.

(** [l[i]] for a list and an index that is not negative. *)
Definition getitem {A : Type} (l : list A) (i : nat) : result A :=
  match l !! i with
  | Some a => Ok a
  | None => Raise IndexError
  end.

(** [max(iterable, key=key)]: the first item whose key is maximal (an item
    replaces the current one only when its key is strictly greater); an
    empty iterable is a [ValueError]. *)
Fixpoint max_from {A : Type} (key : A → nat) (best : A) (l : list A) : A :=
  match l with
  | [] => best
  | x :: l' => max_from key (if key best <? key x then x else best) l'
  end.

Definition max {A : Type} (key : A → nat) (l : list A) : result A :=
  match l with
  | [] => Raise (ValueError "max() arg is an empty sequence")
  | x :: l' => Ok (max_from key x l')
  end.

(** A [dict] keeps its keys in insertion order: an association list with
    one pair per key, new keys at the end. *)
Definition dict (V : Type) : Type := list (nat * V).

Fixpoint dict_get {V : Type} (k : nat) (d : dict V) : option V :=
  match d with
  | [] => None
  | (k', v) :: d' => if decide (k = k') then Some v else dict_get k d'
  end.

Definition dict_values {V : Type} (d : dict V) : list V := d.*2.

(** [f(d.setdefault(k, dflt))] where [f] mutates the value it is given
    (here: appends to one of the two lists of the pair): the value
    stored under [k] is the mutated one. *)
Fixpoint setdefault_apply {V : Type} (k : nat) (dflt : V) (f : V → V)
    (d : dict V) : dict V :=
  match d with
  | [] => [(k, f dflt)]
  | (k', v) :: d' =>
      if decide (k = k') then (k', f v) :: d'
      else (k', v) :: setdefault_apply k dflt f d'
  end.

(** The iteration order of a [set] of integers is an implementation
    detail of the interpreter: every element comes once, in an order
    that the program cannot rely on. *)
Class SetOrder : Type := {
  set_iter : gset nat → list nat;
  set_iter_perm : ∀ s, set_iter s ≡ₚ elements s;
}.

(** [for x in l: acc = step(acc, x)] where [step] may raise. *)
Fixpoint foldM {A S : Type} (step : S → A → result S) (s : S) (l : list A)
    : result S :=
  match l with
  | [] => Ok s
  | a :: l' => s' ← step s a; foldM step s' l'
  end.

End Py.

(** ** Wires and faces (lines 108-283) *)

Module Shapes.
Import Coerce.

(** [_TOLERANCE = 1e-8], as the binary64 value the literal denotes. *)
Definition _TOLERANCE : float := 0x1.5798ee2308c3ap-27%float.

(** A face is observed through its outer wire ([BRepTools.OuterWire_s])
    and the wires added to it as holes ([BRepBuilderAPI_MakeFace.Add]). *)
Record TopoDS_Face (W : Type) : Type := MkFace {
  outer_wire : W;
  inner_wires : list W;
}.
Arguments MkFace {W} _ _.
Arguments outer_wire {W} _.
Arguments inner_wires {W} _.

(** What a constructor of the kernel does when the source calls it
    inside a [try]: it makes its object, or it raises one of the
    exceptions that the [except] clause catches, or it raises another
    exception, of the class of that name. *)
Inductive attempt (A : Type) : Type :=
| Made (a : A)
| NotDone
| Failed (name : string).
Arguments Made {A} a.
Arguments NotDone {A}.
Arguments Failed {A} name.

(** The kernel operations that the wire and face functions call. *)
Class Kernel : Type := {
  Geom_Curve : Type;
  TopoDS_Edge : Type;
  TopoDS_Wire : Type;
  (** [BRep_Tool.IsClosed_s(wire)] *)
  BRep_Tool_IsClosed : TopoDS_Wire → bool;
  (** [TopoDS_Iterator(wire, True, True)]: the edges, in order *)
  TopoDS_Iterator : TopoDS_Wire → list TopoDS_Edge;
  (** [BRepAdaptor_Curve(edge)] and its three methods *)
  FirstParameter : TopoDS_Edge → float;
  LastParameter : TopoDS_Edge → float;
  Value : TopoDS_Edge → float → gp_Pnt;
  (** [p.IsEqual(q, tolerance)] *)
  IsEqual : gp_Pnt → gp_Pnt → float → bool;
  (** [GC_MakeSegment(p, q).Value()]: [NotDone] when the kernel raises
      [StdFail_NotDone] or [Standard_Failure], which line 308 catches,
      and [Failed] when it raises an exception that line 308 lets
      through *)
  GC_MakeSegment : gp_Pnt → gp_Pnt → attempt Geom_Curve;
  (** [BRepBuilderAPI_MakeEdge(curve).Edge()] *)
  BRepBuilderAPI_MakeEdge : Geom_Curve → TopoDS_Edge;
  (** [ShapeExtend_WireData]: the wire made of the wires and edges given
      to [AddOriented(_, 0)], in that order *)
  ShapeExtend_WireData : list (TopoDS_Wire + TopoDS_Edge) → TopoDS_Wire;
  (** [ShapeFix_Wire(wire, TopoDS_Face(), tolerance)], then [FixClosed()],
      [FixConnected()] and [Wire()] *)
  ShapeFix_Wire : TopoDS_Wire → float → TopoDS_Wire;
  (** [BRepLib_FindSurface(make_compound(wires), OnlyPlane=True).Found()] *)
  BRepLib_FindSurface_Found : list TopoDS_Wire → bool;
  (** [BRepFeat.IsInside_s(face1, face2)] *)
  BRepFeat_IsInside : TopoDS_Face TopoDS_Wire → TopoDS_Face TopoDS_Wire → bool;
}.

Inductive LogRecord : Type :=
| Warning (msg : string) (arg : nat).

Section WithKernel.
Context {K : Kernel} {SO : Py.SetOrder}.

#[local] Abbreviation Face := (TopoDS_Face TopoDS_Wire).

(** *** Faces *)

Definition BRepBuilderAPI_MakeFace (wire : TopoDS_Wire) : Face :=
  MkFace wire [].

Definition MakeFace_Add (face : Face) (wire : TopoDS_Wire) : Face :=
  MkFace (outer_wire face) (inner_wires face ++ [wire]).

Definition face_outer_wire (face : Face) : TopoDS_Wire := outer_wire face.

Definition face_from_wires (outer : TopoDS_Wire)
    (inners : list TopoDS_Wire) : Face :=
  foldl MakeFace_Add (BRepBuilderAPI_MakeFace outer) inners.

(** *** Wires *)

Definition is_wire_closed (wire : TopoDS_Wire) : bool :=
  BRep_Tool_IsClosed wire.

Definition are_wires_coplanar (wires : list TopoDS_Wire) : bool :=
  match wires with
  | [] => true
  | _ => BRepLib_FindSurface_Found wires
  end.

Definition edge_from_curve (curve : Geom_Curve) : TopoDS_Edge :=
  BRepBuilderAPI_MakeEdge curve.

Definition segment_curve (start end_ : VecLike) : result Geom_Curve :=
  p ← as_Pnt start;
  q ← as_Pnt end_;
  match GC_MakeSegment p q with
  | Made curve => Ok curve
  | NotDone => Raise (ValueError "could not make segment curve")
  | Failed name => Raise (KernelError name)
  end.

(** The inner [while True] loop of [closed_wire]: the last item of the
    iterator, or [last_edge] when it is exhausted. *)
Fixpoint drain {A : Type} (last_edge : A) (it : list A) : A :=
  match it with
  | [] => last_edge
  | e :: it' => drain e it'
  end.

(** The body of the outer [try] of [closed_wire]. *)
Definition first_and_last_edge (it : list TopoDS_Edge)
    : result (TopoDS_Edge * TopoDS_Edge) :=
  '(first_edge, it) ← Py.next it;
  '(last_edge, it) ← Py.next it;
  Ok (first_edge, drain last_edge it).

Definition closed_wire (wire : TopoDS_Wire) : result TopoDS_Wire :=
  if is_wire_closed wire then Ok wire
  else
    match first_and_last_edge (TopoDS_Iterator wire) with
    | Raise StopIteration => Ok wire      (* fewer than 2 edges *)
    | Raise e => Raise e
    | Ok (first_edge, last_edge) =>
        let start := Value first_edge (FirstParameter first_edge) in
        let end_ := Value last_edge (LastParameter last_edge) in
        wire ← (if negb (IsEqual start end_ _TOLERANCE) then
                  curve ← segment_curve (of_Pnt end_) (of_Pnt start);
                  Ok (ShapeExtend_WireData
                        [inl wire; inr (edge_from_curve curve)])
                else Ok wire);
        Ok (ShapeFix_Wire wire _TOLERANCE)
    end.

Definition wire_from_continuous_edges (edges : list TopoDS_Edge)
    (closed : bool) : result TopoDS_Wire :=
  let wire := ShapeExtend_WireData (inr <$> edges) in
  if closed then closed_wire wire else Ok wire.

(** *** Faces from a soup of wires *)

Definition WireListPair : Type := list TopoDS_Wire * list TopoDS_Wire.

(** [included_in.setdefault(i, set()).add(j)] *)
Definition setdefault_add (i j : nat) (included_in : gmap nat (gset nat))
    : gmap nat (gset nat) :=
  <[i := default ∅ (included_in !! i) ∪ {[j]}]> included_in.

(** [included_in.get(i, set())] *)
Definition get_ancestors (included_in : gmap nat (gset nat)) (i : nat)
    : gset nat :=
  default ∅ (included_in !! i).

(** The two nested loops over [enumerate(faces)] (lines 188-192). *)
Definition build_included_in (faces : list Face) : gmap nat (gset nat) :=
  foldl (λ included_in '(i, face_i),
    foldl (λ included_in '(j, face_j),
      if negb (bool_decide (i = j)) && BRepFeat_IsInside face_i face_j
      then setdefault_add i j included_in
      else included_in)
    included_in (Py.enumerate faces))
  ∅ (Py.enumerate faces).

Definition append_outer (w : TopoDS_Wire) (p : WireListPair) : WireListPair :=
  (p.1 ++ [w], p.2).

Definition append_inner (w : TopoDS_Wire) (p : WireListPair) : WireListPair :=
  (p.1, p.2 ++ [w]).

(** One iteration of the loop over [range(len(faces))] (lines 197-205). *)
Definition assign_step (faces : list Face) (included_in : gmap nat (gset nat))
    (outers_and_inners : Py.dict WireListPair) (i : nat)
    : result (Py.dict WireListPair) :=
  let ancestors := get_ancestors included_in i in
  if bool_decide (size ancestors `mod` 2 ≠ 0) then
    parent_i ← Py.max (λ i, size (get_ancestors included_in i))
                      (Py.set_iter ancestors);
    face_i ← Py.getitem faces i;
    Ok (Py.setdefault_apply parent_i ([], [])
          (append_inner (face_outer_wire face_i)) outers_and_inners)
  else
    face_i ← Py.getitem faces i;
    Ok (Py.setdefault_apply i ([], [])
          (append_outer (face_outer_wire face_i)) outers_and_inners).

Definition assign (faces : list Face) (included_in : gmap nat (gset nat))
    : result (Py.dict WireListPair) :=
  Py.foldM (assign_step faces included_in) [] (seq 0 (length faces)).

(** One iteration of the final loop (lines 207-215): the faces it
    yields and the records it logs. *)
Definition emit (group : WireListPair) : list Face * list LogRecord :=
  let '(outers, inners) := group in
  match outers with
  | [outer] => ([face_from_wires outer inners], [])
  | _ => ((λ path, face_from_wires path []) <$> (outers ++ inners),
          [Warning "invalid nesting (found %d outer wires)" (length outers)])
  end.

Definition emit_all (groups : list WireListPair)
    : list Face * list LogRecord :=
  foldl (λ acc group, (acc.1 ++ (emit group).1, acc.2 ++ (emit group).2))
        ([], []) groups.

(** The generator, run to its end: the faces it yields in order and the
    records it logs, or the exception it raises (always before the
    first face). *)
Definition faces_from_wire_soup (wires : list TopoDS_Wire)
    : result (list Face * list LogRecord) :=
  if negb (are_wires_coplanar wires) then
    Raise (ValueError "wires not coplanar")
  else
    fixed ← mapM closed_wire wires;
    let faces := BRepBuilderAPI_MakeFace <$> fixed in
    if length faces <? 2 then Ok (faces, [])
    else
      let included_in := build_included_in faces in
      outers_and_inners ← assign faces included_in;
      Ok (emit_all (Py.dict_values outers_and_inners)).

(** *** Vocabulary of the statements *)

(** [contained faces i j]: the test of line 191 succeeds for the pair
    [(i, j)], the candidate face [i] lies inside the candidate face [j]. *)
Definition contained (faces : list Face) (i j : nat) : Prop :=
  ∃ face_i face_j,
    faces !! i = Some face_i ∧ faces !! j = Some face_j ∧
    i ≠ j ∧ BRepFeat_IsInside face_i face_j = true.

(** The number of faces that contain the face [i], as lines 198-199
    count it. *)
Definition ancestor_count (faces : list Face) (i : nat) : nat :=
  size (get_ancestors (build_included_in faces) i).

(** Whether line 199 takes the face [i] for an inner ring. *)
Definition is_inner (included_in : gmap nat (gset nat)) (i : nat) : bool :=
  bool_decide (size (get_ancestors included_in i) `mod` 2 ≠ 0).

(** The face that line 200 picks among the ancestors of the face [i]
    (the face [i] itself when it has no ancestor, where line 200 is not
    reached). *)
Definition nearest (included_in : gmap nat (gset nat)) (i : nat) : nat :=
  match Py.set_iter (get_ancestors included_in i) with
  | [] => i
  | x :: l => Py.max_from (λ i, size (get_ancestors included_in i)) x l
  end.

(** What one iteration of the loop of lines 197-205 does to the
    dictionary, once the parent of an inner ring is known: the key of
    the group that the face [i] goes to, and the dictionary after the
    outer wire of the face was appended to a list of that group. *)
Definition group_of (included_in : gmap nat (gset nat)) (parent : nat → nat)
    (i : nat) : nat :=
  if is_inner included_in i then parent i else i.

Definition record_wire (included_in : gmap nat (gset nat)) (parent : nat → nat)
    (outers_and_inners : Py.dict WireListPair) (entry : nat * Face)
    : Py.dict WireListPair :=
  Py.setdefault_apply (group_of included_in parent entry.1) ([], [])
    (if is_inner included_in entry.1
     then append_inner (face_outer_wire entry.2)
     else append_outer (face_outer_wire entry.2))
    outers_and_inners.

(** Boundaries that do not cross each other: containment is a strict
    order, and the faces that contain a given face are nested in one
    another. *)
Record nested (faces : list Face) : Prop := {
  nested_asym i j : contained faces i j → ¬ contained faces j i;
  nested_trans i j k :
    contained faces i j → contained faces j k → contained faces i k;
  nested_chain i j k :
    contained faces i j → contained faces i k → j ≠ k →
    contained faces j k ∨ contained faces k j;
}.

(** The same as decidable tests, over the indices of the faces. *)
Definition contained_b (faces : list Face) (i j : nat) : bool :=
  match faces !! i, faces !! j with
  | Some face_i, Some face_j =>
      negb (bool_decide (i = j)) && BRepFeat_IsInside face_i face_j
  | _, _ => false
  end.

Definition nested_b (faces : list Face) : bool :=
  let indices := seq 0 (length faces) in
  let inside := contained_b faces in
  forallb (λ i, forallb (λ j,
    implb (inside i j) (negb (inside j i)) &&
    forallb (λ k,
      implb (inside i j && inside j k) (inside i k) &&
      implb (inside i j && inside i k && negb (bool_decide (j = k)))
            (inside j k || inside k j))
      indices) indices) indices.

(** The comparison of line 274 on a wire with at least two edges: the
    start of its first edge and the end of its last edge are equal within
    the tolerance. A wire with fewer edges has nothing to compare. *)
Definition ends_meet (wire : TopoDS_Wire) : bool :=
  match first_and_last_edge (TopoDS_Iterator wire) with
  | Ok (first_edge, last_edge) =>
      IsEqual (Value first_edge (FirstParameter first_edge))
              (Value last_edge (LastParameter last_edge)) _TOLERANCE
  | Raise _ => true
  end.

End WithKernel.

End Shapes.

(** ** Curves and their conversion to Bezier segments (lines 286-492) *)

Module Curves.
Import Coerce.

Inductive GeomAbs_CurveType : Type :=
| GeomAbs_Line
| GeomAbs_Circle
| GeomAbs_Ellipse
| GeomAbs_Hyperbola
| GeomAbs_Parabola
| GeomAbs_BezierCurve
| GeomAbs_BSplineCurve
| GeomAbs_OffsetCurve
| GeomAbs_OtherCurve.

#[global] Instance GeomAbs_CurveType_eq_dec : EqDecision GeomAbs_CurveType.
Proof. solve_decision. Defined.

(** A Bezier curve is its poles and, when it is rational, one weight per
    pole. *)
Record Geom_BezierCurve : Type := MkBezier {
  Poles : list gp_Pnt;
  Weights : option (list float);
}.

Definition Bezier_Degree (b : Geom_BezierCurve) : Z :=
  Z.of_nat (length (Poles b)) - 1.

Definition Bezier_IsRational (b : Geom_BezierCurve) : bool :=
  match Weights b with
  | Some _ => true
  | None => false
  end.

(** What [GeomConvert_ApproxCurve] reports. *)
Record ApproxCurve (B : Type) : Type := MkApprox {
  IsDone : bool;
  HasResult : bool;
  Approx_Curve : B;
}.
Arguments MkApprox {B} _ _ _.
Arguments IsDone {B} _.
Arguments HasResult {B} _.
Arguments Approx_Curve {B} _.

(** The kernel operations that the curve functions call. *)
Class Kernel : Type := {
  Geom_Curve : Type;
  Geom_BSplineCurve : Type;
  (** a [GeomAdaptor_Curve] or a [BRepAdaptor_Curve] *)
  Adaptor : Type;
  (** [Geom_BezierCurve.MaxDegree_s()] *)
  MaxDegree : nat;
  (** the constructor [GeomAdaptor_Curve(curve)] *)
  GeomAdaptor_Curve : Geom_Curve → Adaptor;
  isinstance_GeomAdaptor_Curve : Adaptor → bool;
  GetType : Adaptor → GeomAbs_CurveType;
  FirstParameter : Adaptor → float;
  LastParameter : Adaptor → float;
  Value : Adaptor → float → gp_Pnt;
  Bezier : Adaptor → Geom_BezierCurve;
  BSpline : Adaptor → Geom_BSplineCurve;
  (** [adaptor.Curve()] of a [GeomAdaptor_Curve] *)
  Adaptor_Curve : Adaptor → Geom_Curve;
  (** [adaptor.Curve().Curve()] of a [BRepAdaptor_Curve] *)
  Adaptor_Curve_Curve : Adaptor → Geom_Curve;
  (** a [Geom_BezierCurve] seen as a [Geom_Curve] *)
  Bezier_as_Curve : Geom_BezierCurve → Geom_Curve;
  (** [GeomConvert.CurveToBSplineCurve_s(curve)] *)
  CurveToBSplineCurve : Geom_Curve → Geom_BSplineCurve;
  BSpline_Degree : Geom_BSplineCurve → Z;
  BSpline_IsRational : Geom_BSplineCurve → bool;
  (** [GeomConvert_ApproxCurve(bspline, tolerance, GeomAbs_C0,
      MaxSegments=max_segments, MaxDegree=max_degree)] *)
  GeomConvert_ApproxCurve :
    Geom_BSplineCurve → float → Z → Z → ApproxCurve Geom_BSplineCurve;
  (** [GeomConvert_BSplineCurveToBezierCurve(bspline)]: [NbArcs()] and
      [Arc(index)], indices from 1 *)
  NbArcs : Geom_BSplineCurve → nat;
  Arc : Geom_BSplineCurve → nat → Geom_BezierCurve;
  (** [GCPnts_QuasiUniformDeflection(adaptor, tolerance, start, end)]:
      its points when [IsDone()], [None] otherwise *)
  GCPnts_QuasiUniformDeflection :
    Adaptor → float → float → float → option (list gp_Pnt);
}.

Section WithKernel.
Context {K : Kernel}.

Definition BEZIER_MAX_DEGREE : nat := MaxDegree.

Inductive CurveOrAdaptor : Type :=
| a_Curve (curve : Geom_Curve)
| an_Adaptor (adaptor : Adaptor).

Definition curve_adaptor (curve_or_adaptor : CurveOrAdaptor) : Adaptor :=
  match curve_or_adaptor with
  | a_Curve curve => GeomAdaptor_Curve curve
  | an_Adaptor adaptor => adaptor
  end.

Definition bezier_curve (controls : list VecLike) : result Geom_BezierCurve :=
  let n := length controls in
  if negb ((2 <=? n) && (n <=? BEZIER_MAX_DEGREE)) then
    Raise (ValueError "bezier curve must have between 2 and MaxDegree control points")
  else
    poles ← mapM as_Pnt controls;
    Ok (MkBezier poles None).

Definition curve_to_bspline (curve : Geom_Curve) : Geom_BSplineCurve :=
  CurveToBSplineCurve curve.

(** The arcs of [GeomConvert_BSplineCurveToBezierCurve(bspline)], from
    [Arc(1)] to [Arc(NbArcs())]: the loop of lines 459-461. *)
Definition bezier_arcs (bspline : Geom_BSplineCurve) : list Geom_BezierCurve :=
  (λ i, Arc bspline (i + 1)) <$> seq 0 (NbArcs bspline).

Definition bspline_to_beziers (bspline : Geom_BSplineCurve)
    (tolerance : float) (max_degree max_segments : Z)
    : result (list Geom_BezierCurve) :=
  bspline ← (if (3 <? BSpline_Degree bspline)%Z || BSpline_IsRational bspline
             then
               let approx :=
                 GeomConvert_ApproxCurve bspline tolerance
                   max_segments max_degree in
               if IsDone approx && HasResult approx
               then Ok (Approx_Curve approx)
               else Raise (ValueError "could not approximate b-spline")
             else Ok bspline);
  Ok ((λ i, Arc bspline (i + 1)) <$> seq 0 (NbArcs bspline)).

Definition curve_to_beziers (curve_or_adaptor : CurveOrAdaptor)
    (tolerance : float) (max_degree max_segments : Z)
    : result (list Geom_BezierCurve) :=
  let adaptor := curve_adaptor curve_or_adaptor in
  let curve_type := GetType adaptor in
  if decide (curve_type = GeomAbs_Line) then
    let start := Value adaptor (FirstParameter adaptor) in
    let end_ := Value adaptor (FirstParameter adaptor) in
    bezier ← bezier_curve [of_Pnt start; of_Pnt end_];
    Ok [bezier]
  else if decide (curve_type = GeomAbs_BezierCurve) then
    let bezier := Bezier adaptor in
    if (max_degree <? Bezier_Degree bezier)%Z || Bezier_IsRational bezier
    then
      bspline_to_beziers (curve_to_bspline (Bezier_as_Curve bezier))
        tolerance max_degree max_segments
    else Ok [bezier]
  else if decide (curve_type = GeomAbs_BSplineCurve) then
    bspline_to_beziers (BSpline adaptor) tolerance max_degree max_segments
  else
    let curve :=
      if isinstance_GeomAdaptor_Curve adaptor then Adaptor_Curve adaptor
      else Adaptor_Curve_Curve adaptor in
    bspline_to_beziers (CurveToBSplineCurve curve)
      tolerance max_degree max_segments.

Definition curve_to_polyline (curve_or_adaptor : CurveOrAdaptor)
    (tolerance : float) : result (list gp_Pnt) :=
  let adaptor := curve_adaptor curve_or_adaptor in
  let start := FirstParameter adaptor in
  let end_ := LastParameter adaptor in
  let curve_type := GetType adaptor in
  if decide (curve_type = GeomAbs_Line) then
    Ok [Value adaptor start; Value adaptor end_]
  else
    match GCPnts_QuasiUniformDeflection adaptor tolerance start end_ with
    | Some points => Ok points
    | None => Raise (ValueError "could not convert to polyline")
    end.

End WithKernel.

End Curves.

(** ** Further vocabulary for wires and faces *)

Module Soup.
Import Shapes.

(** The wires of a face: its outer wire, then its holes. *)
Definition face_wires {W : Type} (face : TopoDS_Face W) : list W :=
  outer_wire face :: inner_wires face.

(** The wires of the groups of a dictionary, outer wires before inner
    wires in each group. *)
Definition group_wires {W : Type} (groups : Py.dict (list W * list W))
    : list W :=
  Py.dict_values groups ≫= λ g, g.1 ++ g.2.

End Soup.

(** ** Circles and ellipses (lines 326-383) *)

Module Conics.
Import Coerce.

#[local] Open Scope float_scope.

(** [math.radians(x)]: the product of [x] and the constant pi / 180. *)
Definition pi : float := 0x1.921fb54442d18p+1.
Definition radians (x : float) : float := x * (pi / 180).

(** The kernel operations that [circle_curve] and [ellipse_curve] call.
    The source handles none of their exceptions: the constructors that
    check their arguments (a direction that is not null, radii that are
    not negative and in order, an arc that is not empty) give a
    [result], and what they raise leaves the function as it is. *)
Class Kernel : Type := {
  gp_Ax2 : Type;
  gp_Circ : Type;
  gp_Elips : Type;
  Geom_Curve : Type;
  (** [gp_Dir(x, y, z)] *)
  gp_Dir_new : float → float → float → result gp_Dir;
  (** [gp_Ax2(point, direction)] *)
  gp_Ax2_new : gp_Pnt → gp_Dir → gp_Ax2;
  (** [gp_Circ(axes, radius)] *)
  gp_Circ_new : gp_Ax2 → float → result gp_Circ;
  (** [gp_Elips(axes, major_radius, minor_radius)] *)
  gp_Elips_new : gp_Ax2 → float → float → result gp_Elips;
  (** [ellipse.Rotated(gp_Ax1(), angle)] *)
  Rotated : gp_Elips → float → gp_Elips;
  (** [GC_MakeCircle(circle).Value()] *)
  GC_MakeCircle : gp_Circ → result Geom_Curve;
  (** [GC_MakeArcOfCircle(circle, alpha1, alpha2, sense).Value()] *)
  GC_MakeArcOfCircle : gp_Circ → float → float → bool → result Geom_Curve;
  (** [GC_MakeEllipse(ellipse).Value()] *)
  GC_MakeEllipse : gp_Elips → result Geom_Curve;
  (** [GC_MakeArcOfEllipse(ellipse, alpha1, alpha2, sense).Value()] *)
  GC_MakeArcOfEllipse : gp_Elips → float → float → bool → result Geom_Curve;
  (** [trsf = gp_Trsf(); trsf.SetTranslation(vec); curve.Transform(trsf)] *)
  Translated : Geom_Curve → gp_Vec → Geom_Curve;
}.

Section WithKernel.
Context {K : Kernel}.

Definition circle_curve (radius start_angle end_angle : float)
    (clockwise : bool) (center normal : VecLike) : result Geom_Curve :=
  direction ← as_Dir gp_Dir_new normal;
  circle_gp ← gp_Circ_new (gp_Ax2_new (Pnt 0 0 0) direction) radius;
  circle ←
    (if start_angle =? end_angle then GC_MakeCircle circle_gp
     else GC_MakeArcOfCircle circle_gp
            (radians start_angle) (radians end_angle) clockwise);
  translation ← as_Vec center;
  Ok (Translated circle translation).

Definition ellipse_curve (major_radius minor_radius : float)
    (start_angle end_angle : float) (clockwise : bool) (rotation : float)
    (center normal : VecLike) : result Geom_Curve :=
  let '(major_radius, minor_radius, rotation) :=
    if major_radius <? minor_radius
    then (minor_radius, major_radius, rotation + 90)
    else (major_radius, minor_radius, rotation) in
  direction ← as_Dir gp_Dir_new normal;
  ellipse_gp ← gp_Elips_new (gp_Ax2_new (Pnt 0 0 0) direction)
                 major_radius minor_radius;
  let ellipse_gp := Rotated ellipse_gp (radians rotation) in
  ellipse ←
    (if start_angle =? end_angle then GC_MakeEllipse ellipse_gp
     else GC_MakeArcOfEllipse ellipse_gp
            (radians start_angle) (radians end_angle) clockwise);
  translation ← as_Vec center;
  Ok (Translated ellipse translation).

End WithKernel.

End Conics.

(** * Concrete kernels

    Small implementations of the kernel interfaces, on which the
    functions above can be run. *)

Module PiecewiseKernel.
Import Coerce Curves.

#[local] Open Scope float_scope.

(** Curves of two kinds: a line trimmed to a parameter range, and a
    Bezier curve. A B-spline is kept in piecewise Bezier form: its degree,
    whether it is rational, and its spans between consecutive knots. *)
Inductive curve : Type :=
| Line (origin : gp_Pnt) (dx dy dz : float) (first last : float)
| BezierCurve (b : Geom_BezierCurve).

Record bspline : Type := MkBSpline {
  degree : Z;
  rational : bool;
  spans : list Geom_BezierCurve;
}.

Definition lerp (t : float) (p q : gp_Pnt) : gp_Pnt :=
  Pnt ((1 - t) * Pnt_X p + t * Pnt_X q)
      ((1 - t) * Pnt_Y p + t * Pnt_Y q)
      ((1 - t) * Pnt_Z p + t * Pnt_Z q).

(** One round of de Casteljau's algorithm. *)
Fixpoint casteljau_round (t : float) (ps : list gp_Pnt) : list gp_Pnt :=
  match ps with
  | p :: (q :: _) as ps' => lerp t p q :: casteljau_round t ps'
  | _ => []
  end.

Fixpoint casteljau (fuel : nat) (t : float) (ps : list gp_Pnt) : gp_Pnt :=
  match fuel, ps with
  | _, [p] => p
  | S fuel', _ => casteljau fuel' t (casteljau_round t ps)
  | O, _ => Pnt 0 0 0
  end.

Definition value (c : curve) (t : float) : gp_Pnt :=
  match c with
  | Line o dx dy dz _ _ =>
      Pnt (Pnt_X o + t * dx) (Pnt_Y o + t * dy) (Pnt_Z o + t * dz)
  | BezierCurve b => casteljau (length (Poles b)) t (Poles b)
  end.

Definition to_bspline (c : curve) : bspline :=
  match c with
  | Line _ _ _ _ first last =>
      MkBSpline 1 false [MkBezier [value c first; value c last] None]
  | BezierCurve b => MkBSpline (Bezier_Degree b) (Bezier_IsRational b) [b]
  end.

#[export] Instance kernel : Kernel := {|
  Geom_Curve := curve;
  Geom_BSplineCurve := bspline;
  Adaptor := curve;
  MaxDegree := 25;
  GeomAdaptor_Curve := λ c, c;
  isinstance_GeomAdaptor_Curve := λ _, true;
  GetType := λ c,
    match c with
    | Line _ _ _ _ _ _ => GeomAbs_Line
    | BezierCurve _ => GeomAbs_BezierCurve
    end;
  FirstParameter := λ c,
    match c with Line _ _ _ _ first _ => first | BezierCurve _ => 0 end;
  LastParameter := λ c,
    match c with Line _ _ _ _ _ last => last | BezierCurve _ => 1 end;
  Value := value;
  Bezier := λ c,
    match c with BezierCurve b => b | Line _ _ _ _ _ _ => MkBezier [] None end;
  BSpline := to_bspline;
  Adaptor_Curve := λ c, c;
  Adaptor_Curve_Curve := λ c, c;
  Bezier_as_Curve := BezierCurve;
  CurveToBSplineCurve := to_bspline;
  BSpline_Degree := degree;
  BSpline_IsRational := rational;
  (* no approximation is ever found *)
  GeomConvert_ApproxCurve := λ s _ _ _, MkApprox false false s;
  NbArcs := λ s, length (spans s);
  Arc := λ s i, default (MkBezier [] None) (spans s !! (i - 1)%nat);
  GCPnts_QuasiUniformDeflection := λ _ _ _ _, None;
|}.

(** The segment from (0, 0, 0) to (10, 0, 0), as [GC_MakeSegment] makes
    it: the X axis trimmed to the parameters 0 and 10. *)
Definition x_segment : curve := Line (Pnt 0 0 0) 1 0 0 0 10.

(** A plane cubic: four poles and no weights. *)
Definition cubic : Geom_BezierCurve :=
  MkBezier [Pnt 0 0 0; Pnt 1 2 0; Pnt 3 2 0; Pnt 4 0 0] None.

End PiecewiseKernel.

(** A set iterated in the order of [elements]. *)
#[export] Instance elements_order : Py.SetOrder := {|
  Py.set_iter := elements;
  Py.set_iter_perm := λ s, reflexivity (elements s);
|}.

Module SegmentKernel.
Import Coerce Shapes.

#[local] Open Scope float_scope.

#[export] Instance spec_float_eq_dec : EqDecision SpecFloat.spec_float.
Proof. solve_decision. Defined.

(** Two floats with the same sign, mantissa and exponent. *)
Definition same_float (x y : float) : bool :=
  bool_decide (Prim2SF x = Prim2SF y).

Definition same_point (p q : gp_Pnt) : bool :=
  same_float (Pnt_X p) (Pnt_X q) && same_float (Pnt_Y p) (Pnt_Y q) &&
  same_float (Pnt_Z p) (Pnt_Z q).

(** Straight edges, known by their two ends and run over the parameters
    0 to 1; a wire is the list of its edges. *)
Definition edge : Type := gp_Pnt * gp_Pnt.
Definition wire : Type := list edge.

Definition value (e : edge) (t : float) : gp_Pnt :=
  if same_float t 0 then e.1
  else if same_float t 1 then e.2
  else PiecewiseKernel.lerp t e.1 e.2.

Definition vertices (w : wire) : list gp_Pnt :=
  w ≫= λ e, [e.1; e.2].

(** A wire is closed when its last edge ends where its first edge starts. *)
Definition is_closed (w : wire) : bool :=
  match w with
  | [] => false
  | e :: _ => same_point e.1 (List.last w e).2
  end.

(** Every vertex of [w1] lies strictly within the bounding box of [w2]. *)
Definition within_box (w1 w2 : wire) : bool :=
  forallb (λ p,
    existsb (λ q, Pnt_X q <? Pnt_X p) (vertices w2) &&
    existsb (λ q, Pnt_X p <? Pnt_X q) (vertices w2) &&
    existsb (λ q, Pnt_Y q <? Pnt_Y p) (vertices w2) &&
    existsb (λ q, Pnt_Y p <? Pnt_Y q) (vertices w2)) (vertices w1).

#[export] Instance kernel : Kernel := {|
  Geom_Curve := edge;
  TopoDS_Edge := edge;
  TopoDS_Wire := wire;
  BRep_Tool_IsClosed := is_closed;
  TopoDS_Iterator := λ w, w;
  FirstParameter := λ _, 0;
  LastParameter := λ _, 1;
  Value := value;
  IsEqual := λ p q _, same_point p q;
  GC_MakeSegment := λ p q, if same_point p q then NotDone else Made (p, q);
  BRepBuilderAPI_MakeEdge := λ c, c;
  ShapeExtend_WireData := λ items,
    items ≫= λ item, match item with inl w => w | inr e => [e] end;
  (* nothing to repair *)
  ShapeFix_Wire := λ w _, w;
  (* the plane z = 0 *)
  BRepLib_FindSurface_Found := λ ws,
    forallb (λ w, forallb (λ p, same_float (Pnt_Z p) 0) (vertices w)) ws;
  BRepFeat_IsInside := λ f1 f2, within_box (outer_wire f1) (outer_wire f2);
|}.

(** Two sides of a triangle, the triangle, and a triangle in the plane
    z = 1. *)
Definition two_sides : wire :=
  [(Pnt 0 0 0, Pnt 4 0 0); (Pnt 4 0 0, Pnt 4 3 0)].

Definition triangle : wire :=
  [(Pnt 0 0 0, Pnt 4 0 0); (Pnt 4 0 0, Pnt 4 3 0); (Pnt 4 3 0, Pnt 0 0 0)].

Definition lifted_triangle : wire :=
  [(Pnt 0 0 1, Pnt 4 0 1); (Pnt 4 0 1, Pnt 4 3 1); (Pnt 4 3 1, Pnt 0 0 1)].

End SegmentKernel.

Module LabelKernel.
Import Coerce Shapes.

(** Closed wires in one plane, known by a label, with the containment
    test between the faces they bound given as a table [inside]. *)
Definition kernel {W : Type} `{!Inhabited W} (inside : W → W → bool)
    : Kernel := {|
  Geom_Curve := W;
  TopoDS_Edge := W;
  TopoDS_Wire := W;
  BRep_Tool_IsClosed := λ _, true;
  TopoDS_Iterator := λ w, [w];
  FirstParameter := λ _, 0%float;
  LastParameter := λ _, 1%float;
  Value := λ _ _, Pnt 0 0 0;
  IsEqual := λ _ _ _, true;
  GC_MakeSegment := λ _ _, NotDone;
  BRepBuilderAPI_MakeEdge := λ c, c;
  ShapeExtend_WireData := λ items,
    match items with
    | inl w :: _ | inr w :: _ => w
    | [] => inhabitant
    end;
  ShapeFix_Wire := λ w _, w;
  BRepLib_FindSurface_Found := λ _, true;
  BRepFeat_IsInside := λ f1 f2, inside (outer_wire f1) (outer_wire f2);
|}.

#[export] Instance float_inhabited : Inhabited float := populate 0%float.

(** Circles around the origin, known by their radius: one lies inside
    another when its radius is smaller. *)
Definition circles : Kernel := kernel (W := float) PrimFloat.ltb.

Definition three_circles : list float := [10; 7; 3]%float.

(** A containment test that is not transitive: wire 2 is found inside
    wire 1 and wire 1 inside wire 0, but wire 2 is not found inside
    wire 0. *)
Definition broken_test (w1 w2 : nat) : bool :=
  bool_decide ((w1, w2) ∈ [(1, 0); (2, 1)]).

Definition broken : Kernel := kernel broken_test.

End LabelKernel.

Module SingleSpanKernel.
Import Coerce Curves.

#[local] Open Scope float_scope.

(** Bezier curves only: a B-spline has one span, and the approximation
    of a curve is its chord, the segment between its first and last
    poles. *)
Definition chord (b : Geom_BezierCurve) : Geom_BezierCurve :=
  match Poles b with
  | [] => MkBezier [] None
  | p :: ps => MkBezier [p; List.last ps p] None
  end.

Definition kernel : Kernel := {|
  Geom_Curve := Geom_BezierCurve;
  Geom_BSplineCurve := Geom_BezierCurve;
  Adaptor := Geom_BezierCurve;
  MaxDegree := 25;
  GeomAdaptor_Curve := λ c, c;
  isinstance_GeomAdaptor_Curve := λ _, true;
  GetType := λ _, GeomAbs_BezierCurve;
  FirstParameter := λ _, 0;
  LastParameter := λ _, 1;
  Value := λ b t, PiecewiseKernel.casteljau (length (Poles b)) t (Poles b);
  Bezier := λ b, b;
  BSpline := λ b, b;
  Adaptor_Curve := λ b, b;
  Adaptor_Curve_Curve := λ b, b;
  Bezier_as_Curve := λ b, b;
  CurveToBSplineCurve := λ b, b;
  BSpline_Degree := Bezier_Degree;
  BSpline_IsRational := Bezier_IsRational;
  GeomConvert_ApproxCurve := λ s _ _ _, MkApprox true true (chord s);
  NbArcs := λ _, 1%nat;
  Arc := λ s _, s;
  GCPnts_QuasiUniformDeflection := λ _ _ _ _, None;
|}.

(** A quarter of the unit circle as a rational quadratic. *)
Definition quarter_circle : Geom_BezierCurve :=
  MkBezier [Pnt 1 0 0; Pnt 1 1 0; Pnt 0 1 0]
           (Some [1; 0x1.6a09e667f3bcdp-1; 1]).

End SingleSpanKernel.

Module OpenKernel.
Import Coerce Shapes.

(** The kernel of straight segments of [SegmentKernel], but one in
    which [GC_MakeSegment] is never done. *)
Definition kernel : Kernel := {|
  Geom_Curve := SegmentKernel.edge;
  TopoDS_Edge := SegmentKernel.edge;
  TopoDS_Wire := SegmentKernel.wire;
  BRep_Tool_IsClosed := SegmentKernel.is_closed;
  TopoDS_Iterator := λ w, w;
  FirstParameter := λ _, 0%float;
  LastParameter := λ _, 1%float;
  Value := SegmentKernel.value;
  IsEqual := λ p q _, SegmentKernel.same_point p q;
  GC_MakeSegment := λ _ _, NotDone;
  BRepBuilderAPI_MakeEdge := λ c, c;
  ShapeExtend_WireData := λ items,
    items ≫= λ item, match item with inl w => w | inr e => [e] end;
  ShapeFix_Wire := λ w _, w;
  BRepLib_FindSurface_Found := λ _, true;
  BRepFeat_IsInside := λ _ _, false;
|}.

End OpenKernel.

Module BoundedKernel.
Import Coerce Shapes.

#[local] Open Scope float_scope.

(** The kernel of straight segments of [SegmentKernel], with the bound
    of the kernel on the length of a line, 2e100: the constructor of a
    segment raises [Standard_ConstructionError] beyond that length,
    which line 308 does not catch, and is not done between two points
    that are the same. *)
Definition infinite : float := 0x1.249ad2594c37dp+333.

Definition distance (p q : gp_Pnt) : float :=
  sqrt ((Pnt_X q - Pnt_X p) * (Pnt_X q - Pnt_X p) +
        (Pnt_Y q - Pnt_Y p) * (Pnt_Y q - Pnt_Y p) +
        (Pnt_Z q - Pnt_Z p) * (Pnt_Z q - Pnt_Z p)).

Definition kernel : Kernel := {|
  Geom_Curve := SegmentKernel.edge;
  TopoDS_Edge := SegmentKernel.edge;
  TopoDS_Wire := SegmentKernel.wire;
  BRep_Tool_IsClosed := SegmentKernel.is_closed;
  TopoDS_Iterator := λ w, w;
  FirstParameter := λ _, 0;
  LastParameter := λ _, 1;
  Value := SegmentKernel.value;
  IsEqual := λ p q _, SegmentKernel.same_point p q;
  GC_MakeSegment := λ p q,
    if SegmentKernel.same_point p q then NotDone
    else if infinite <? distance p q
         then Failed "Standard_ConstructionError"
         else Made (p, q);
  BRepBuilderAPI_MakeEdge := λ c, c;
  ShapeExtend_WireData := λ items,
    items ≫= λ item, match item with inl w => w | inr e => [e] end;
  ShapeFix_Wire := λ w _, w;
  BRepLib_FindSurface_Found := λ ws,
    forallb (λ w, forallb (λ p, SegmentKernel.same_float (Pnt_Z p) 0)
                          (SegmentKernel.vertices w)) ws;
  BRepFeat_IsInside := λ f1 f2,
    SegmentKernel.within_box (outer_wire f1) (outer_wire f2);
|}.

(** Two sides of a triangle in the plane z = 0, from (-1.5e100, 0) to
    (0, 1) and on to (1.5e100, 0): its ends are 3e100 apart. *)
Definition wide_sides : SegmentKernel.wire :=
  [(Pnt (- 0x1.b6e83b85f253bp+332) 0 0, Pnt 0 1 0);
   (Pnt 0 1 0, Pnt 0x1.b6e83b85f253bp+332 0 0)].

End BoundedKernel.

Module SegmentSamples.
Import Coerce Shapes SegmentKernel.

#[local] Open Scope float_scope.

(** The triangle of [SegmentKernel], moved by 10 along the X axis. *)
Definition far_triangle : wire :=
  [(Pnt 10 0 0, Pnt 14 0 0); (Pnt 14 0 0, Pnt 14 3 0);
   (Pnt 14 3 0, Pnt 10 0 0)].

End SegmentSamples.

Module SewnKernel.
Import Coerce Shapes.

(** Wires of straight segments that carry the closed flag of their
    shape, which is what [BRep_Tool.IsClosed_s] reads. A wire made of
    edges has the flag off, also when its last edge ends where its first
    edge starts; the repair turns it on for such a wire. *)
Record wire : Type := MkWire {
  edges : list SegmentKernel.edge;
  closed_flag : bool;
}.

#[export] Instance kernel : Kernel := {|
  Geom_Curve := SegmentKernel.edge;
  TopoDS_Edge := SegmentKernel.edge;
  TopoDS_Wire := wire;
  BRep_Tool_IsClosed := closed_flag;
  TopoDS_Iterator := edges;
  FirstParameter := λ _, 0%float;
  LastParameter := λ _, 1%float;
  Value := SegmentKernel.value;
  IsEqual := λ p q _, SegmentKernel.same_point p q;
  GC_MakeSegment := λ p q,
    if SegmentKernel.same_point p q then NotDone else Made (p, q);
  BRepBuilderAPI_MakeEdge := λ c, c;
  ShapeExtend_WireData := λ items,
    MkWire (items ≫= λ item,
              match item with inl w => edges w | inr e => [e] end)
           false;
  ShapeFix_Wire := λ w _, MkWire (edges w) (SegmentKernel.is_closed (edges w));
  BRepLib_FindSurface_Found := λ ws,
    forallb (λ w, forallb (λ p, SegmentKernel.same_float (Pnt_Z p) 0)
                          (SegmentKernel.vertices (edges w))) ws;
  BRepFeat_IsInside := λ f1 f2,
    SegmentKernel.within_box (edges (outer_wire f1)) (edges (outer_wire f2));
|}.

(** The triangle of [SegmentKernel] as a wire made of its three edges,
    and as a closed wire; one of its sides alone, and two of them. *)
Definition loose_triangle : wire := MkWire SegmentKernel.triangle false.

Definition sewn_triangle : wire := MkWire SegmentKernel.triangle true.

Definition one_side : wire := MkWire [(Pnt 0 0 0, Pnt 4 0 0)] false.

Definition loose_sides : wire := MkWire SegmentKernel.two_sides false.

End SewnKernel.

Module LabelSamples.
Import Coerce Shapes LabelKernel.

(** Four circles around the origin, each inside the ones before it. *)
Definition four_circles : list float := [10; 7; 5; 3]%float.

(** Three regions that overlap without one containing another, and a
    fourth wire inside the three of them. *)
Definition overlap_test (w1 w2 : nat) : bool :=
  bool_decide ((w1, w2) ∈ [(3, 0); (3, 1); (3, 2)]).

Definition overlap : Kernel := kernel overlap_test.

End LabelSamples.

Module ToleranceKernel.
Import Coerce Curves.

#[local] Open Scope float_scope.

(** The kernel of [SingleSpanKernel], with an approximation that is
    done only when it is within the tolerance: the chord of a curve is
    accepted when each pole of the curve is, in each coordinate, within
    the tolerance of one of the two ends of the chord. A result is there
    in both cases. *)
Definition near (tolerance : float) (p q : gp_Pnt) : bool :=
  (abs (Pnt_X p - Pnt_X q) <=? tolerance) &&
  (abs (Pnt_Y p - Pnt_Y q) <=? tolerance) &&
  (abs (Pnt_Z p - Pnt_Z q) <=? tolerance).

Definition within (tolerance : float) (b : Geom_BezierCurve) : bool :=
  match Poles b with
  | [] => true
  | p :: ps =>
      forallb (λ q, near tolerance q p || near tolerance q (List.last ps p))
              (Poles b)
  end.

Definition kernel : Kernel := {|
  Geom_Curve := Geom_BezierCurve;
  Geom_BSplineCurve := Geom_BezierCurve;
  Adaptor := Geom_BezierCurve;
  MaxDegree := 25;
  GeomAdaptor_Curve := λ c, c;
  isinstance_GeomAdaptor_Curve := λ _, true;
  GetType := λ _, GeomAbs_BezierCurve;
  FirstParameter := λ _, 0;
  LastParameter := λ _, 1;
  Value := λ b t, PiecewiseKernel.casteljau (length (Poles b)) t (Poles b);
  Bezier := λ b, b;
  BSpline := λ b, b;
  Adaptor_Curve := λ b, b;
  Adaptor_Curve_Curve := λ b, b;
  Bezier_as_Curve := λ b, b;
  CurveToBSplineCurve := λ b, b;
  BSpline_Degree := Bezier_Degree;
  BSpline_IsRational := Bezier_IsRational;
  GeomConvert_ApproxCurve := λ s tolerance _ _,
    MkApprox (within tolerance s) true (SingleSpanKernel.chord s);
  NbArcs := λ _, 1%nat;
  Arc := λ s _, s;
  GCPnts_QuasiUniformDeflection := λ _ _ _ _, None;
|}.

End ToleranceKernel.

Module TermKernel.
Import Coerce Conics.

#[local] Open Scope float_scope.

(** Conics kept as the terms that made them. The constructors refuse
    what the kernel refuses: a negative radius, a major radius smaller
    than the minor one, and an arc between two equal parameters. *)
Inductive conic : Type :=
| Circle (axes : gp_Pnt * gp_Dir) (radius : float)
| Ellipse (axes : gp_Pnt * gp_Dir) (major minor : float)
| RotatedEllipse (ellipse : conic) (angle : float).

Inductive curve : Type :=
| Full (c : conic)
| Arc (c : conic) (alpha1 alpha2 : float) (sense : bool)
| Moved (c : curve) (by_ : gp_Vec).

Definition arc (c : conic) (alpha1 alpha2 : float) (sense : bool)
    : result curve :=
  if alpha1 =? alpha2 then Raise (KernelError "Standard_ConstructionError")
  else Ok (Arc c alpha1 alpha2 sense).

Definition kernel : Kernel := {|
  gp_Ax2 := gp_Pnt * gp_Dir;
  gp_Circ := conic;
  gp_Elips := conic;
  Geom_Curve := curve;
  gp_Dir_new := λ x y z, Ok (Dir x y z);
  gp_Ax2_new := pair;
  gp_Circ_new := λ axes radius,
    if radius <? 0 then Raise (KernelError "Standard_ConstructionError")
    else Ok (Circle axes radius);
  gp_Elips_new := λ axes major minor,
    if (minor <? 0) || (major <? minor)
    then Raise (KernelError "Standard_ConstructionError")
    else Ok (Ellipse axes major minor);
  Rotated := RotatedEllipse;
  GC_MakeCircle := λ c, Ok (Full c);
  GC_MakeArcOfCircle := arc;
  GC_MakeEllipse := λ c, Ok (Full c);
  GC_MakeArcOfEllipse := arc;
  Translated := Moved;
|}.

End TermKernel.

(** * Properties *)

(** ** Results *)

Lemma raises_Ok {A : Type} (a : A) : ¬ raises (Ok a).
Proof. intros [e He]. discriminate. Qed.

Lemma raises_Raise {A : Type} (e : exn) : raises (@Raise A e).
Proof. by exists e. Qed.

Lemma mapM_Ok {A B : Type} (f : A → result B) (l : list A) :
  (∀ a, a ∈ l → ∃ b, f a = Ok b) → ∃ bs, mapM f l = Ok bs.
Proof.
  induction l as [|a l IH]; intros Hf; simpl; [by eexists|].
  destruct (Hf a) as [b ->]; [left|]. simpl.
  destruct IH as [bs ->]; [intros; apply Hf; by right|].
  by eexists.
Qed.

Lemma mapM_id {A : Type} (f : A → result A) (l : list A) :
  (∀ a, a ∈ l → f a = Ok a) → mapM f l = Ok l.
Proof.
  induction l as [|a l IH]; intros Hf; simpl; [done|].
  rewrite Hf by left. simpl. rewrite IH; [done|].
  intros; apply Hf; by right.
Qed.

Lemma mapM_Ok_inv {A B : Type} (f : A → result B) (l : list A) (bs : list B) :
  mapM f l = Ok bs →
  length bs = length l ∧
  ∀ i a, l !! i = Some a → ∃ b, f a = Ok b ∧ bs !! i = Some b.
Proof.
  revert bs. induction l as [|a l IH]; intros bs; simpl.
  { intros [= <-]. split; [done|]. intros i a Hi. done. }
  destruct (f a) as [b|e] eqn:Hfa; simpl; [|done].
  destruct (mapM f l) as [bs'|e] eqn:Hl; simpl; [|done].
  intros [= <-]. destruct (IH bs' eq_refl) as [Hlen Hall].
  split; [simpl; by rewrite Hlen|].
  intros [|i] a' Hi; simpl in *.
  - injection Hi as <-. by exists b.
  - by apply Hall.
Qed.

Lemma mapM_Raise_inv {A B : Type} (f : A → result B) (l : list A) (e : exn) :
  mapM f l = Raise e → ∃ a, a ∈ l ∧ f a = Raise e.
Proof.
  induction l as [|a l IH]; simpl; [done|].
  destruct (f a) as [b|e'] eqn:Hfa; simpl.
  - destruct (mapM f l) as [bs'|e'] eqn:Hl; simpl; [done|].
    intros [= ->]. destruct IH as (a' & Ha' & Hf); [done|].
    exists a'. split; [by right|done].
  - intros [= ->]. exists a. split; [left|done].
Qed.

Lemma mapM_raises {A B : Type} (f : A → result B) (l : list A) (a : A) :
  a ∈ l → raises (f a) → raises (mapM f l).
Proof.
  intros Ha Hfa. destruct (mapM f l) as [bs|e] eqn:Hl; [|apply raises_Raise].
  apply list_elem_of_lookup in Ha as [i Hi].
  destruct (mapM_Ok_inv f l bs Hl) as [_ Hall].
  destruct (Hall i a Hi) as (b & Hb & _). destruct Hfa as [e He]. congruence.
Qed.

(** ** Coercion *)

Section CoerceFacts.
Import Coerce.

Lemma as_triple_bad_length (t : list float) :
  length t ≠ 2 → length t ≠ 3 →
  as_triple (of_tuple t) = Raise (ValueError "cannot make point").
Proof.
  intros H2 H3. destruct t as [|x [|y [|z [|w t]]]]; simpl in *; done.
Qed.

(** C10. A pair [(x, y)] becomes the triple [(x, y, 0.0)]; a tuple whose
    length is neither 2 nor 3 makes [as_triple] raise a [ValueError], and
    with it [as_Pnt], [as_Vec] and [as_Dir] (whatever the constructor of
    [gp_Dir] does). *)
Theorem as_triple_pair_lifted_other_lengths_rejected :
  (∀ x y : float, as_triple (of_tuple [x; y]) = Ok (x, y, 0%float)) ∧
  (∀ (gp_Dir_new : float → float → float → result gp_Dir) (t : list float),
     length t ≠ 2 → length t ≠ 3 →
     is_ValueError (as_triple (of_tuple t)) ∧
     is_ValueError (as_Pnt (of_tuple t)) ∧
     is_ValueError (as_Vec (of_tuple t)) ∧
     is_ValueError (as_Dir gp_Dir_new (of_tuple t))).
Proof.
  split; [done|].
  intros mk t H2 H3. pose proof (as_triple_bad_length t H2 H3) as E.
  unfold as_Pnt, as_Vec, as_Dir. rewrite E. simpl.
  repeat split; by eexists.
Qed.

Lemma as_triple_pair_lifted_other_lengths_rejected_witness :
  as_triple (of_tuple [1%float; 2%float]) = Ok (1%float, 2%float, 0%float) ∧
  is_ValueError (as_triple (of_tuple [1%float])) ∧
  is_ValueError (as_Pnt (of_tuple [1%float; 2%float; 3%float; 4%float])) ∧
  is_ValueError (as_Vec (of_tuple [])) ∧
  is_ValueError (as_Dir (λ x y z, Ok (Dir x y z)) (of_tuple [1%float])).
Proof.
  pose proof as_triple_pair_lifted_other_lengths_rejected as [Hpair Hbad].
  split; [apply Hpair|].
  split; [apply (Hbad (λ x y z, Ok (Dir x y z)) [1%float]); simpl; lia|].
  split; [apply (Hbad (λ x y z, Ok (Dir x y z))
                   [1%float; 2%float; 3%float; 4%float]); simpl; lia|].
  split; [apply (Hbad (λ x y z, Ok (Dir x y z)) []); simpl; lia|].
  apply (Hbad (λ x y z, Ok (Dir x y z)) [1%float]); simpl; lia.
Defined.

End CoerceFacts.

(** ** Wires *)

Section WireFacts.
Import Coerce Shapes.
Context {K : Kernel}.

Lemma first_and_last_edge_short (it : list TopoDS_Edge) :
  length it < 2 → first_and_last_edge it = Raise StopIteration.
Proof. destruct it as [|e1 [|e2 it]]; simpl; [done|done|lia]. Qed.

Lemma first_and_last_edge_long (e1 e2 : TopoDS_Edge) (it : list TopoDS_Edge) :
  first_and_last_edge (e1 :: e2 :: it) = Ok (e1, drain e2 it).
Proof. done. Qed.

Lemma drain_snoc {A : Type} (e x : A) (it : list A) :
  drain e (it ++ [x]) = x.
Proof. revert e. induction it as [|y it IH]; intros e; simpl; [done|apply IH]. Qed.

Lemma closed_wire_of_closed (wire : TopoDS_Wire) :
  is_wire_closed wire = true → closed_wire wire = Ok wire.
Proof. intros H. unfold closed_wire. by rewrite H. Qed.

Lemma closed_wire_of_short (wire : TopoDS_Wire) :
  length (TopoDS_Iterator wire) < 2 → closed_wire wire = Ok wire.
Proof.
  intros H. unfold closed_wire. rewrite first_and_last_edge_short by done.
  by destruct (is_wire_closed wire).
Qed.

(** The wire that [closed_wire] gives to the repair, when it gets there. *)
Lemma closed_wire_repaired (wire : TopoDS_Wire) (e1 e2 : TopoDS_Edge)
    (it : list TopoDS_Edge) :
  is_wire_closed wire = false →
  TopoDS_Iterator wire = e1 :: e2 :: it →
  let start := Value e1 (FirstParameter e1) in
  let end_ := Value (drain e2 it) (LastParameter (drain e2 it)) in
  closed_wire wire =
    if IsEqual start end_ _TOLERANCE then Ok (ShapeFix_Wire wire _TOLERANCE)
    else match GC_MakeSegment end_ start with
         | Made curve =>
             Ok (ShapeFix_Wire
                   (ShapeExtend_WireData [inl wire; inr (edge_from_curve curve)])
                   _TOLERANCE)
         | NotDone => Raise (ValueError "could not make segment curve")
         | Failed name => Raise (KernelError name)
         end.
Proof.
  intros Hopen Hit start end_. unfold closed_wire. rewrite Hopen, Hit.
  rewrite first_and_last_edge_long. fold start end_.
  destruct (IsEqual start end_ _TOLERANCE); simpl; [done|].
  unfold segment_curve. simpl. by destruct (GC_MakeSegment end_ start).
Qed.

(** C4. A wire that [is_wire_closed] (the test of line 252) takes for
    closed, and a wire with fewer than two edges, is returned as it is:
    the result is the argument itself, no segment was added to it and the
    repair was not run on it. A wire of two edges or more whose ends
    meet within the tolerance, but which that test does not take for
    closed, gets no segment either; it does go through the repair, and
    what is returned is the wire that the repair made. *)
Theorem closed_wire_returns_closed_or_short_wire (wire : TopoDS_Wire) :
  (is_wire_closed wire = true ∨ length (TopoDS_Iterator wire) < 2 →
   closed_wire wire = Ok wire) ∧
  (is_wire_closed wire = false →
   2 ≤ length (TopoDS_Iterator wire) →
   ends_meet wire = true →
   closed_wire wire = Ok (ShapeFix_Wire wire _TOLERANCE)).
Proof.
  split.
  - intros [H|H]; [by apply closed_wire_of_closed|by apply closed_wire_of_short].
  - intros Hopen Hlen Hmeet.
    destruct (TopoDS_Iterator wire) as [|e1 [|e2 it]] eqn:Hit;
      [simpl in Hlen; lia..|].
    rewrite (closed_wire_repaired wire e1 e2 it) by done. simpl.
    unfold ends_meet in Hmeet. rewrite Hit, first_and_last_edge_long in Hmeet.
    by rewrite Hmeet.
Qed.

(** When the kernel makes a segment between any two points that are not
    equal within the tolerance, [closed_wire] does not raise. *)
Lemma closed_wire_Ok (wire : TopoDS_Wire) :
  (∀ p q, IsEqual p q _TOLERANCE = false →
           ∃ curve, GC_MakeSegment q p = Made curve) →
  ∃ wire', closed_wire wire = Ok wire'.
Proof.
  intros Hseg.
  destruct (is_wire_closed wire) eqn:Hclosed.
  { exists wire. by apply closed_wire_of_closed. }
  destruct (TopoDS_Iterator wire) as [|e1 [|e2 it]] eqn:Hit.
  1,2: exists wire; apply closed_wire_of_short; rewrite Hit; simpl; lia.
  rewrite (closed_wire_repaired wire e1 e2 it) by done. simpl.
  destruct (IsEqual _ _ _) eqn:Heq; [by eexists|].
  destruct (Hseg _ _ Heq) as [curve ->]. by eexists.
Qed.

Section Idempotence.

(** The repair of wires, the extension of a wire by an edge and the
    construction of a segment belong to the kernel. The idempotence of
    [closed_wire] rests on these contracts: for an equality of wires
    within the tolerance (any reflexive relation), the repair changes
    nothing further when it is run again, and it keeps together the ends
    of a wire whose ends meet; the wire made of a wire and one more edge
    has the edges of the first followed by the new one; and a segment
    ends at the point it was made to end at. *)
Variable wire_equal : relation TopoDS_Wire.
Hypothesis wire_equal_refl : Reflexive wire_equal.
Hypothesis repair_idempotent : ∀ w,
  wire_equal (ShapeFix_Wire (ShapeFix_Wire w _TOLERANCE) _TOLERANCE)
             (ShapeFix_Wire w _TOLERANCE).
Hypothesis repair_keeps_ends : ∀ w,
  ends_meet w = true → ends_meet (ShapeFix_Wire w _TOLERANCE) = true.
Hypothesis extend_edges : ∀ w e,
  TopoDS_Iterator (ShapeExtend_WireData [inl w; inr e])
  = TopoDS_Iterator w ++ [e].
Hypothesis segment_end : ∀ p q curve,
  GC_MakeSegment p q = Made curve →
  let e := BRepBuilderAPI_MakeEdge curve in
  IsEqual q (Value e (LastParameter e)) _TOLERANCE = true.

Lemma ends_meet_extended (wire : TopoDS_Wire) (e1 e2 : TopoDS_Edge)
    (it : list TopoDS_Edge) (curve : Geom_Curve) :
  TopoDS_Iterator wire = e1 :: e2 :: it →
  GC_MakeSegment (Value (drain e2 it) (LastParameter (drain e2 it)))
                 (Value e1 (FirstParameter e1)) = Made curve →
  ends_meet (ShapeExtend_WireData [inl wire; inr (edge_from_curve curve)])
  = true.
Proof.
  intros Hit Hseg. unfold ends_meet. rewrite extend_edges, Hit. simpl.
  rewrite drain_snoc.
  by apply (segment_end _ _ _ Hseg).
Qed.

(** C8. With a kernel that keeps the contracts above (the repair is
    idempotent up to the equality of wires and keeps together ends that
    meet, a wire extended by an edge ends with that edge, a segment ends
    where it was asked to), closing the result of [closed_wire] returns,
    and gives a wire equal to that result. This holds for every wire on
    which [closed_wire] returns, those with at least two edges among
    them. *)
Theorem closed_wire_idempotent (wire closed : TopoDS_Wire) :
  closed_wire wire = Ok closed →
  ∃ closed', closed_wire closed = Ok closed' ∧ wire_equal closed' closed.
Proof.
  intros Hrun.
  destruct (is_wire_closed wire) eqn:Hopen.
  { rewrite closed_wire_of_closed in Hrun by done. injection Hrun as <-.
    exists wire. by rewrite closed_wire_of_closed. }
  destruct (TopoDS_Iterator wire) as [|e1 [|e2 it]] eqn:Hit.
  1,2: rewrite closed_wire_of_short in Hrun by (rewrite Hit; simpl; lia);
       injection Hrun as <-; exists wire; split; [|done];
       apply closed_wire_of_short; rewrite Hit; simpl; lia.
  rewrite (closed_wire_repaired wire e1 e2 it) in Hrun by done.
  simpl in Hrun.
  (* the wire given to the repair has ends that meet *)
  assert (∃ w, closed = ShapeFix_Wire w _TOLERANCE ∧ ends_meet w = true)
    as (w & -> & Hw).
  { destruct (IsEqual _ _ _) eqn:Heq.
    - injection Hrun as <-. exists wire. split; [done|].
      unfold ends_meet. by rewrite Hit, first_and_last_edge_long.
    - destruct (GC_MakeSegment _ _) as [curve| |name] eqn:Hseg; [|done..].
      injection Hrun as <-. eexists. split; [done|].
      by eapply ends_meet_extended. }
  apply repair_keeps_ends in Hw.
  set (closed := ShapeFix_Wire w _TOLERANCE) in *.
  destruct (is_wire_closed closed) eqn:Hclosed.
  { exists closed. by rewrite closed_wire_of_closed. }
  destruct (TopoDS_Iterator closed) as [|c1 [|c2 cs]] eqn:Hcs.
  1,2: exists closed; split; [|done];
       apply closed_wire_of_short; rewrite Hcs; simpl; lia.
  rewrite (closed_wire_repaired closed c1 c2 cs) by done. simpl.
  unfold ends_meet in Hw. rewrite Hcs, first_and_last_edge_long in Hw.
  rewrite Hw. eexists. split; [done|]. apply repair_idempotent.
Qed.

End Idempotence.

End WireFacts.

(** ** Python built-ins *)

Section PyFacts.

Lemma elem_of_enumerate {A : Type} (l : list A) (i : nat) (a : A) :
  (i, a) ∈ Py.enumerate l ↔ l !! i = Some a.
Proof.
  unfold Py.enumerate. rewrite elem_of_lookup_imap. split.
  - by intros (i' & a' & [= -> ->] & H).
  - intros H. by exists i, a.
Qed.

Lemma max_from_elem {A : Type} (key : A → nat) (best : A) (l : list A) :
  Py.max_from key best l ∈ best :: l.
Proof.
  revert best. induction l as [|x l IH]; intros best; simpl; [by left|].
  specialize (IH (if key best <? key x then x else best)).
  apply elem_of_cons in IH as [->|IH]; [|by do 2 right].
  destruct (key best <? key x); [right; left | left].
Qed.

Lemma max_from_ge {A : Type} (key : A → nat) (best : A) (l : list A) (a : A) :
  a ∈ best :: l → key a ≤ key (Py.max_from key best l).
Proof.
  revert a best. induction l as [|x l IH]; intros a best; simpl.
  - intros ->%list_elem_of_singleton. done.
  - intros Ha. destruct (Nat.ltb_spec (key best) (key x)) as [Hlt|Hge].
    + apply elem_of_cons in Ha as [->|Ha].
      * etrans; [|apply (IH x x); left]. lia.
      * by apply IH.
    + apply elem_of_cons in Ha as [->|Ha]; [apply IH; left|].
      apply elem_of_cons in Ha as [->|Ha]; [|apply IH; by right].
      etrans; [exact Hge|]. apply IH. left.
Qed.

(** The item that [max] returns is the first among those of greatest
    key: every item before it has a strictly smaller key. *)
Lemma max_from_first {A : Type} (key : A → nat) (best : A) (l : list A) :
  ∃ l1 l2, best :: l = l1 ++ Py.max_from key best l :: l2 ∧
           ∀ a, a ∈ l1 → key a < key (Py.max_from key best l).
Proof.
  revert best. induction l as [|x l IH]; intros best; simpl.
  { exists [], []. split; [done|]. by intros a ?%elem_of_nil. }
  destruct (Nat.ltb_spec (key best) (key x)) as [Hlt|Hge].
  - destruct (IH x) as (l1 & l2 & Heq & Hbefore).
    exists (best :: l1), l2. split; [by rewrite Heq|].
    intros a [->|Ha]%elem_of_cons; [|by apply Hbefore].
    eapply Nat.lt_le_trans; [exact Hlt|]. apply max_from_ge. left.
  - destruct (IH best) as (l1 & l2 & Heq & Hbefore).
    destruct l1 as [|b l1].
    + injection Heq as Hbest Hl. exists [], (x :: l2). split.
      * simpl. by f_equal; [|f_equal].
      * by intros a ?%elem_of_nil.
    + injection Heq as <- Hl. exists (best :: x :: l1), l2. split.
      * simpl. by do 2 f_equal.
      * intros a [->|[->|Ha]%elem_of_cons]%elem_of_cons.
        -- apply Hbefore. left.
        -- eapply Nat.le_lt_trans; [exact Hge|]. apply Hbefore. left.
        -- apply Hbefore. by right.
Qed.

Lemma dict_get_setdefault_apply {V : Type} (k k' : nat) (dflt : V)
    (f : V → V) (d : Py.dict V) :
  Py.dict_get k (Py.setdefault_apply k' dflt f d)
  = if decide (k = k') then Some (f (default dflt (Py.dict_get k d)))
    else Py.dict_get k d.
Proof.
  induction d as [|[k0 v] d IH]; simpl.
  - by case_decide.
  - destruct (decide (k' = k0)) as [->|Hne]; simpl.
    + by case_decide.
    + rewrite IH. destruct (decide (k = k0)) as [->|]; [|done].
      by rewrite decide_False by done.
Qed.

Lemma dict_get_Some_values {V : Type} (k : nat) (v : V) (d : Py.dict V) :
  Py.dict_get k d = Some v → v ∈ Py.dict_values d.
Proof.
  unfold Py.dict_values. induction d as [|[k0 v0] d IH]; simpl; [done|].
  case_decide; [intros [= ->]; left | intros Hget; right; by apply IH].
Qed.

End PyFacts.

(** ** The containment sets *)

Section IncludedIn.
Import Coerce Shapes.
Context {K : Kernel}.

#[local] Abbreviation Face := (TopoDS_Face TopoDS_Wire).

Lemma face_from_wires_eq (outer : TopoDS_Wire) (inners : list TopoDS_Wire) :
  face_from_wires outer inners = MkFace outer inners.
Proof.
  unfold face_from_wires, BRepBuilderAPI_MakeFace.
  change inners with ([] ++ inners) at 2. generalize (@nil TopoDS_Wire).
  induction inners as [|w inners IH]; intros acc; simpl.
  - by rewrite app_nil_r.
  - unfold MakeFace_Add at 2. simpl. rewrite IH. by rewrite <-app_assoc.
Qed.

Lemma get_ancestors_setdefault_add (i j i' : nat) (m : gmap nat (gset nat)) :
  get_ancestors (setdefault_add i j m) i'
  = if decide (i' = i) then get_ancestors m i ∪ {[j]} else get_ancestors m i'.
Proof.
  unfold get_ancestors, setdefault_add. case_decide as Hi.
  - subst. by rewrite lookup_insert_eq.
  - by rewrite lookup_insert_ne.
Qed.

(** The inner loop, for a fixed face [i]. *)
Lemma inner_loop_spec (i : nat) (face_i : Face) (js : list (nat * Face))
    (m : gmap nat (gset nat)) (i' j' : nat) :
  j' ∈ get_ancestors
         (foldl (λ included_in '(j, face_j),
                   if negb (bool_decide (i = j)) && BRepFeat_IsInside face_i face_j
                   then setdefault_add i j included_in
                   else included_in) m js) i'
  ↔ j' ∈ get_ancestors m i' ∨
    (i' = i ∧ i ≠ j' ∧
     ∃ face_j, (j', face_j) ∈ js ∧ BRepFeat_IsInside face_i face_j = true).
Proof.
  revert m. induction js as [|[j face_j] js IH]; intros m; simpl.
  { split; [by left|]. intros [?|(_ & _ & f & ?%elem_of_nil & _)]; done. }
  rewrite IH. clear IH.
  destruct (decide (i = j)) as [<-|Hij].
  - rewrite bool_decide_true by done. simpl. split.
    + intros [?|(-> & Hne & f & Hin & Hf)]; [by left|].
      right. repeat split; [done|]. exists f. split; [by right|done].
    + intros [?|(-> & Hne & f & Hin & Hf)]; [by left|].
      right. repeat split; [done|]. exists f. split; [|done].
      apply elem_of_cons in Hin as [[= ? ?]|Hin]; [done|done].
  - rewrite bool_decide_false by done. simpl.
    destruct (BRepFeat_IsInside face_i face_j) eqn:Hinside.
    + rewrite get_ancestors_setdefault_add. split.
      * intros [Hm|(-> & Hne & f & Hin & Hf)].
        -- case_decide as Hi'; [|by left]. subst i'.
           apply elem_of_union in Hm as [Hm| ->%elem_of_singleton]; [by left|].
           right. repeat split; [done|]. exists face_j. split; [left|done].
        -- right. repeat split; [done|]. exists f. split; [by right|done].
      * intros [Hm|(-> & Hne & f & Hin & Hf)].
        -- left. case_decide; [subst; set_solver|done].
        -- apply elem_of_cons in Hin as [[= -> ->]|Hin].
           ++ left. rewrite decide_True by done. set_solver.
           ++ right. repeat split; [done|]. by exists f.
    + split.
      * intros [?|(-> & Hne & f & Hin & Hf)]; [by left|].
        right. repeat split; [done|]. exists f. split; [by right|done].
      * intros [?|(-> & Hne & f & Hin & Hf)]; [by left|].
        apply elem_of_cons in Hin as [[= -> ->]|Hin]; [congruence|].
        right. repeat split; [done|]. by exists f.
Qed.

Lemma outer_loop_spec (js is_ : list (nat * Face)) (m : gmap nat (gset nat))
    (i' j' : nat) :
  j' ∈ get_ancestors
         (foldl (λ included_in '(i, face_i),
            foldl (λ included_in '(j, face_j),
                     if negb (bool_decide (i = j)) &&
                        BRepFeat_IsInside face_i face_j
                     then setdefault_add i j included_in
                     else included_in) included_in js) m is_) i'
  ↔ j' ∈ get_ancestors m i' ∨
    (i' ≠ j' ∧
     ∃ face_i face_j, (i', face_i) ∈ is_ ∧ (j', face_j) ∈ js ∧
                      BRepFeat_IsInside face_i face_j = true).
Proof.
  revert m. induction is_ as [|[i face_i] is_ IH]; intros m; simpl.
  { split; [by left|]. intros [?|(_ & f & _ & ?%elem_of_nil & _)]; done. }
  rewrite IH, inner_loop_spec. clear IH. split.
  - intros [[?|(-> & Hne & fj & Hin & Hf)]|(Hne & fi & fj & Hi & Hj & Hf)].
    + by left.
    + right. split; [done|]. exists face_i, fj. split; [left|done].
    + right. split; [done|]. exists fi, fj. split; [by right|done].
  - intros [?|(Hne & fi & fj & Hi & Hj & Hf)]; [by do 2 left|].
    apply elem_of_cons in Hi as [[= -> ->]|Hi].
    + left. right. repeat split; [done|]. by exists fj.
    + right. split; [done|]. by exists fi, fj.
Qed.

(** The set that line 198 reads for the face [i] holds the faces in
    which the kernel finds it. *)
Lemma elem_of_ancestors (faces : list Face) (i j : nat) :
  j ∈ get_ancestors (build_included_in faces) i ↔ contained faces i j.
Proof.
  unfold build_included_in, contained. rewrite outer_loop_spec.
  unfold get_ancestors at 1. rewrite lookup_empty. simpl. split.
  - intros [?%elem_of_empty|(Hne & fi & fj & Hi & Hj & Hf)]; [done|].
    exists fi, fj. by rewrite <-!elem_of_enumerate.
  - intros (fi & fj & Hi & Hj & Hne & Hf). right. split; [done|].
    exists fi, fj. by rewrite !elem_of_enumerate.
Qed.

Lemma ancestors_lt (faces : list Face) (i j : nat) :
  contained faces i j → i < length faces ∧ j < length faces.
Proof.
  intros (fi & fj & Hi & Hj & _). split; by eapply lookup_lt_Some.
Qed.

End IncludedIn.

(** ** The groups of outer and inner wires *)

Section Groups.
Import Coerce Shapes.
Context {K : Kernel} {SO : Py.SetOrder}.

#[local] Abbreviation Face := (TopoDS_Face TopoDS_Wire).

Implicit Types (faces : list Face) (included_in : gmap nat (gset nat)).

Lemma elem_of_set_iter (s : gset nat) (x : nat) : x ∈ Py.set_iter s ↔ x ∈ s.
Proof. by rewrite Py.set_iter_perm, elem_of_elements. Qed.

Lemma is_inner_nonempty included_in i :
  is_inner included_in i = true → get_ancestors included_in i ≠ ∅.
Proof.
  unfold is_inner. intros Hodd%bool_decide_eq_true Hempty.
  rewrite Hempty, size_empty in Hodd. done.
Qed.

(** On an inner ring, line 200 does not raise. *)
Lemma max_nearest included_in i :
  is_inner included_in i = true →
  Py.max (λ i, size (get_ancestors included_in i))
         (Py.set_iter (get_ancestors included_in i))
  = Ok (nearest included_in i).
Proof.
  intros Hne%is_inner_nonempty. unfold nearest.
  destruct (Py.set_iter (get_ancestors included_in i)) as [|x l] eqn:Hiter;
    [|done].
  exfalso. apply Hne. apply set_eq. intros x.
  rewrite <-elem_of_set_iter, Hiter. set_solver.
Qed.

Lemma assign_step_record faces included_in parent d i face_i :
  faces !! i = Some face_i →
  (is_inner included_in i = true →
   Py.max (λ i, size (get_ancestors included_in i))
          (Py.set_iter (get_ancestors included_in i)) = Ok (parent i)) →
  assign_step faces included_in d i
  = Ok (record_wire included_in parent d (i, face_i)).
Proof.
  intros Hi Hparent. unfold assign_step, record_wire, group_of, Py.getitem.
  cbn [fst snd]. rewrite Hi. fold (is_inner included_in i).
  destruct (is_inner included_in i); [|done].
  by rewrite Hparent.
Qed.

Lemma foldM_assign_step faces included_in parent (fs : list Face) (k : nat) d :
  (∀ i f, fs !! i = Some f → faces !! (k + i) = Some f) →
  (∀ i, i < length faces → is_inner included_in i = true →
     Py.max (λ i, size (get_ancestors included_in i))
            (Py.set_iter (get_ancestors included_in i)) = Ok (parent i)) →
  Py.foldM (assign_step faces included_in) d (seq k (length fs))
  = Ok (foldl (record_wire included_in parent) d (imap (λ i f, (k + i, f)) fs)).
Proof.
  intros Hfs Hparent. revert k d Hfs.
  induction fs as [|f fs IH]; intros k d Hfs; simpl; [done|].
  rewrite (assign_step_record faces included_in parent d k f).
  - simpl. rewrite Nat.add_0_r. rewrite IH.
    + do 2 f_equal. apply imap_ext. intros i x _. simpl. f_equal. lia.
    + intros i x Hi. replace (S k + i) with (k + S i) by lia. by apply Hfs.
  - rewrite <-(Nat.add_0_r k). by apply Hfs.
  - apply Hparent. apply (lookup_lt_Some _ _ f).
    rewrite <-(Nat.add_0_r k). by apply Hfs.
Qed.

(** The loop of lines 197-205 does not raise, and its result is the
    fold of [record_wire] over the faces and their indices. *)
Lemma assign_record faces included_in parent :
  (∀ i, i < length faces → is_inner included_in i = true →
     Py.max (λ i, size (get_ancestors included_in i))
            (Py.set_iter (get_ancestors included_in i)) = Ok (parent i)) →
  assign faces included_in
  = Ok (foldl (record_wire included_in parent) [] (Py.enumerate faces)).
Proof.
  intros Hparent. unfold assign.
  by rewrite (foldM_assign_step faces included_in parent faces 0).
Qed.

Lemma assign_nearest faces included_in :
  assign faces included_in
  = Ok (foldl (record_wire included_in (nearest included_in)) []
          (Py.enumerate faces)).
Proof. apply assign_record. intros i _. apply max_nearest. Qed.

Lemma filter_fst_imap {A : Type} (l : list A) (n k : nat) :
  filter (λ e, e.1 = k) (imap (λ i a, (n + i, a)) l)
  = if decide (n ≤ k)
    then match l !! (k - n) with Some a => [(k, a)] | None => [] end
    else [].
Proof.
  revert n. induction l as [|x l IH]; intros n.
  { simpl. by case_decide. }
  rewrite imap_cons, filter_cons. cbn [fst].
  rewrite (imap_ext _ (λ i a, (S n + i, a))); last first.
  { intros i a _. simpl. f_equal. lia. }
  rewrite IH. clear IH.
  destruct (decide (n + 0 = k)) as [Heq|Hne].
  - rewrite (decide_False (P := S n ≤ k)) by lia.
    rewrite (decide_True (P := n ≤ k)) by lia.
    replace (k - n) with 0 by lia. simpl. by rewrite Heq.
  - destruct (decide (n ≤ k)).
    + rewrite decide_True by lia.
      by replace (k - n) with (S (k - S n)) by lia.
    + by rewrite decide_False by lia.
Qed.

Lemma filter_fst_enumerate {A : Type} (l : list A) (k : nat) :
  filter (λ e, e.1 = k) (Py.enumerate l)
  = match l !! k with Some a => [(k, a)] | None => [] end.
Proof.
  unfold Py.enumerate.
  rewrite (imap_ext _ (λ i a, (0 + i, a))) by done.
  rewrite filter_fst_imap. rewrite decide_True by lia.
  by rewrite Nat.sub_0_r.
Qed.

Section Recorded.

Variable included_in : gmap nat (gset nat).
Variable parent : nat → nat.

#[local] Abbreviation record := (record_wire included_in parent).
#[local] Abbreviation group := (group_of included_in parent).

Lemma dict_get_record (k : nat) (d : Py.dict WireListPair) (e : nat * Face) :
  Py.dict_get k (record d e)
  = if decide (k = group e.1)
    then Some ((if is_inner included_in e.1
                then append_inner (face_outer_wire e.2)
                else append_outer (face_outer_wire e.2))
                 (default ([], []) (Py.dict_get k d)))
    else Py.dict_get k d.
Proof. unfold record_wire. by rewrite dict_get_setdefault_apply. Qed.

(** The lists of a group only grow. *)
Lemma record_grows (k : nat) (es : list (nat * Face)) (d : Py.dict WireListPair)
    (outers inners : list TopoDS_Wire) :
  Py.dict_get k d = Some (outers, inners) →
  ∃ outers' inners',
    Py.dict_get k (foldl record d es) = Some (outers ++ outers', inners ++ inners').
Proof.
  revert d outers inners.
  induction es as [|e es IH]; intros d outers inners Hget; simpl.
  { exists [], []. by rewrite !app_nil_r. }
  pose proof (dict_get_record k d e) as Hstep. rewrite Hget in Hstep.
  case_decide; [|by apply IH].
  destruct (is_inner included_in e.1); simpl in Hstep;
    destruct (IH _ _ _ Hstep) as (o' & i' & ->).
  - exists o', (face_outer_wire e.2 :: i'). by rewrite <-app_assoc.
  - exists (face_outer_wire e.2 :: o'), i'. by rewrite <-app_assoc.
Qed.

(** Every face is recorded: an inner ring in the inner list of the group
    of its parent, any other in the outer list of its own group. *)
Lemma record_inner (es : list (nat * Face)) (d : Py.dict WireListPair)
    (i : nat) (face_i : Face) :
  (i, face_i) ∈ es → is_inner included_in i = true →
  ∃ outers inners,
    Py.dict_get (parent i) (foldl record d es) = Some (outers, inners) ∧
    face_outer_wire face_i ∈ inners.
Proof.
  revert d. induction es as [|e es IH]; intros d Hin Hinner.
  { by apply elem_of_nil in Hin. }
  apply elem_of_cons in Hin as [<-|Hin]; [|by apply IH].
  simpl. pose proof (dict_get_record (parent i) d (i, face_i)) as Hstep.
  unfold group_of in Hstep. cbn [fst snd] in Hstep.
  rewrite Hinner, decide_True in Hstep by done.
  destruct (default ([], []) (Py.dict_get (parent i) d)) as [o inn].
  destruct (record_grows _ es _ _ _ Hstep) as (o' & i' & ->).
  eexists _, _. split; [done|]. simpl. set_solver.
Qed.

Lemma record_outer (es : list (nat * Face)) (d : Py.dict WireListPair)
    (i : nat) (face_i : Face) :
  (i, face_i) ∈ es → is_inner included_in i = false →
  ∃ outers inners,
    Py.dict_get i (foldl record d es) = Some (outers, inners) ∧
    face_outer_wire face_i ∈ outers.
Proof.
  revert d. induction es as [|e es IH]; intros d Hin Hinner.
  { by apply elem_of_nil in Hin. }
  apply elem_of_cons in Hin as [<-|Hin]; [|by apply IH].
  simpl. pose proof (dict_get_record i d (i, face_i)) as Hstep.
  unfold group_of in Hstep. cbn [fst snd] in Hstep.
  rewrite Hinner, decide_True in Hstep by done.
  destruct (default ([], []) (Py.dict_get i d)) as [o inn].
  destruct (record_grows _ es _ _ _ Hstep) as (o' & i' & ->).
  eexists _, _. split; [done|]. simpl. set_solver.
Qed.

(** The outer list of the group [k] holds the outer wires of the faces
    of index [k] that are not inner rings, and nothing else. *)
Lemma record_outers (k : nat) (es : list (nat * Face)) (d : Py.dict WireListPair)
    (outers inners : list TopoDS_Wire) :
  Py.dict_get k (foldl record d es) = Some (outers, inners) →
  outers
  = (default ([], []) (Py.dict_get k d)).1 ++
    ((λ e, face_outer_wire e.2) <$>
       filter (λ e, is_inner included_in e.1 = false ∧ e.1 = k) es).
Proof.
  revert d. induction es as [|e es IH]; intros d; simpl.
  { intros ->. simpl. by rewrite app_nil_r. }
  intros Hget. rewrite (IH _ Hget). clear IH Hget.
  rewrite dict_get_record, filter_cons. unfold group_of.
  destruct (is_inner included_in e.1) eqn:Hinner.
  - rewrite (decide_False (P := _ ∧ _)) by (intros [? _]; done).
    case_decide; [|done]. simpl. by destruct (default _ _).
  - destruct (decide (k = e.1)) as [->|Hne].
    + rewrite (decide_True (P := _ ∧ _)) by done. simpl.
      by rewrite <-app_assoc.
    + rewrite (decide_False (P := _ ∧ _)) by (intros [_ ?]; done). done.
Qed.

End Recorded.

End Groups.

(** ** Faces from a soup of wires *)

Section Soup.
Import Coerce Shapes.
Context {K : Kernel} {SO : Py.SetOrder}.

#[local] Abbreviation Face := (TopoDS_Face TopoDS_Wire).

Lemma emit_all_eq (groups : list WireListPair) :
  emit_all groups
  = (groups ≫= (λ g, (emit g).1), groups ≫= (λ g, (emit g).2)).
Proof.
  unfold emit_all.
  enough (∀ acc : list Face * list LogRecord,
    foldl (λ acc group, (acc.1 ++ (emit group).1, acc.2 ++ (emit group).2))
          acc groups
    = (acc.1 ++ (groups ≫= (λ g, (emit g).1)),
       acc.2 ++ (groups ≫= (λ g, (emit g).2)))) as H by apply H.
  induction groups as [|g groups IH]; intros [fs log]; simpl.
  - by rewrite !app_nil_r.
  - rewrite IH. simpl. by rewrite <-!app_assoc.
Qed.

Lemma emit_single (outer : TopoDS_Wire) (inners : list TopoDS_Wire) :
  emit ([outer], inners) = ([MkFace outer inners], []).
Proof. simpl. by rewrite face_from_wires_eq. Qed.

Lemma emit_fallback (outers inners : list TopoDS_Wire) :
  length outers ≠ 1 →
  emit (outers, inners)
  = ((λ path, MkFace path []) <$> (outers ++ inners),
     [Warning "invalid nesting (found %d outer wires)" (length outers)]).
Proof.
  intros Hlen. unfold emit.
  destruct outers as [|o [|o' outers]]; [|done|];
    (f_equal; apply list_fmap_ext; intros ? path _; apply face_from_wires_eq).
Qed.

Lemma elem_of_emit_all (groups : list WireListPair) (group : WireListPair)
    (face : Face) :
  group ∈ groups → face ∈ (emit group).1 → face ∈ (emit_all groups).1.
Proof.
  intros Hg Hf. rewrite emit_all_eq. simpl. apply list_elem_of_bind.
  by exists group.
Qed.

(** The same with any function that agrees with line 200 on the inner
    rings. *)
Lemma faces_from_wire_soup_record (wires fixed : list TopoDS_Wire)
    (parent : nat → nat) :
  are_wires_coplanar wires = true →
  mapM closed_wire wires = Ok fixed →
  2 ≤ length fixed →
  let faces := BRepBuilderAPI_MakeFace <$> fixed in
  let included_in := build_included_in faces in
  (∀ i, i < length faces → is_inner included_in i = true →
     Py.max (λ i, size (get_ancestors included_in i))
            (Py.set_iter (get_ancestors included_in i)) = Ok (parent i)) →
  faces_from_wire_soup wires
  = Ok (emit_all (Py.dict_values
          (foldl (record_wire included_in parent) [] (Py.enumerate faces)))).
Proof.
  intros Hplane Hfixed Hlen faces included_in Hparent.
  unfold faces_from_wire_soup. rewrite Hplane, Hfixed. simpl.
  fold faces. destruct (Nat.ltb_spec (length faces) 2) as [Hlt|_].
  { unfold faces in Hlt. rewrite length_fmap in Hlt. lia. }
  fold included_in. by rewrite (assign_record faces included_in parent).
Qed.

(** With coplanar wires that [closed_wire] could close, two of them at
    least, the generator raises nothing: it yields what the final loop
    makes of the groups of the dictionary. *)
Lemma faces_from_wire_soup_groups (wires fixed : list TopoDS_Wire) :
  are_wires_coplanar wires = true →
  mapM closed_wire wires = Ok fixed →
  2 ≤ length fixed →
  let faces := BRepBuilderAPI_MakeFace <$> fixed in
  let included_in := build_included_in faces in
  let groups :=
    foldl (record_wire included_in (nearest included_in)) []
          (Py.enumerate faces) in
  assign faces included_in = Ok groups ∧
  faces_from_wire_soup wires = Ok (emit_all (Py.dict_values groups)).
Proof.
  intros Hplane Hfixed Hlen faces included_in groups.
  assert (assign faces included_in = Ok groups) as Hassign
    by apply assign_nearest.
  split; [done|].
  unfold faces_from_wire_soup. rewrite Hplane, Hfixed. simpl.
  fold faces. destruct (Nat.ltb_spec (length faces) 2) as [Hlt|_].
  { unfold faces in Hlt. rewrite length_fmap in Hlt. lia. }
  fold included_in. by rewrite Hassign.
Qed.

Lemma faces_from_wire_soup_few (wires fixed : list TopoDS_Wire) :
  are_wires_coplanar wires = true →
  mapM closed_wire wires = Ok fixed →
  length fixed < 2 →
  faces_from_wire_soup wires = Ok (BRepBuilderAPI_MakeFace <$> fixed, []).
Proof.
  intros Hplane Hfixed Hlen.
  unfold faces_from_wire_soup. rewrite Hplane, Hfixed. simpl.
  destruct (Nat.ltb_spec (length (BRepBuilderAPI_MakeFace <$> fixed)) 2)
    as [_|Hge]; [done|].
  rewrite length_fmap in Hge. lia.
Qed.

Lemma faces_from_wire_soup_not_coplanar (wires : list TopoDS_Wire) :
  are_wires_coplanar wires = false →
  faces_from_wire_soup wires = Raise (ValueError "wires not coplanar").
Proof. intros H. unfold faces_from_wire_soup. by rewrite H. Qed.

(** What [faces_from_wire_soup] raises when a wire cannot be closed. *)
Lemma faces_from_wire_soup_not_closed (wires : list TopoDS_Wire) (e : exn) :
  are_wires_coplanar wires = true →
  mapM closed_wire wires = Raise e →
  faces_from_wire_soup wires = Raise e.
Proof.
  intros Hplane Hfixed. unfold faces_from_wire_soup.
  by rewrite Hplane, Hfixed.
Qed.

Lemma faces_from_wire_soup_closed (wires fixed : list TopoDS_Wire) :
  are_wires_coplanar wires = true →
  mapM closed_wire wires = Ok fixed →
  ∃ out, faces_from_wire_soup wires = Ok out.
Proof.
  intros Hplane Hfixed.
  destruct (decide (length fixed < 2)) as [Hlen|Hlen].
  - rewrite (faces_from_wire_soup_few wires fixed) by done. by eexists.
  - destruct (faces_from_wire_soup_groups wires fixed) as [_ Hrun];
      [done|done|lia|].
    rewrite Hrun. by eexists.
Qed.

(** C5. [faces_from_wire_soup] raises exactly on the wires that
    [are_wires_coplanar] refuses and on those among which there is a wire
    on which [closed_wire] raises. On wires that are not coplanar it
    raises the [ValueError] of line 175, whatever the wires are; on
    coplanar wires it raises what [closed_wire] raises on the first wire
    that it cannot close; and nothing else makes it raise: neither the
    search of the ancestors nor the two loops over the faces. So, with a
    kernel that makes a segment between any two points that are not
    equal within the tolerance, it raises exactly on the wires that are
    not coplanar. Without wires, it yields nothing and logs nothing. *)
Theorem faces_from_wire_soup_raises_iff_not_coplanar_or_not_closed :
  (∀ wires : list TopoDS_Wire,
     (raises (faces_from_wire_soup wires) ↔
        are_wires_coplanar wires = false ∨
        ∃ wire, wire ∈ wires ∧ raises (closed_wire wire)) ∧
     (are_wires_coplanar wires = false →
      faces_from_wire_soup wires = Raise (ValueError "wires not coplanar")) ∧
     (are_wires_coplanar wires = true →
      ∀ e, mapM closed_wire wires = Raise e →
           faces_from_wire_soup wires = Raise e) ∧
     ((∀ p q, IsEqual p q _TOLERANCE = false →
             ∃ curve, GC_MakeSegment q p = Made curve) →
      (raises (faces_from_wire_soup wires) ↔
         are_wires_coplanar wires = false))) ∧
  faces_from_wire_soup [] = Ok ([], []).
Proof.
  split; [|done].
  intros wires.
  assert (raises (faces_from_wire_soup wires) ↔
            are_wires_coplanar wires = false ∨
            ∃ wire, wire ∈ wires ∧ raises (closed_wire wire)) as Hiff.
  { destruct (are_wires_coplanar wires) eqn:Hplane.
    - destruct (mapM closed_wire wires) as [fixed|e] eqn:Hfixed.
      + destruct (faces_from_wire_soup_closed wires fixed) as [out ->];
          [done..|].
        split; [by intros ?%raises_Ok|].
        intros [?|(wire & Hin & Hraises)]; [done|]. exfalso.
        apply (raises_Ok fixed). rewrite <-Hfixed. by eapply mapM_raises.
      + rewrite (faces_from_wire_soup_not_closed wires e) by done.
        split; [|intros _; apply raises_Raise]. intros _. right.
        destruct (mapM_Raise_inv _ _ _ Hfixed) as (wire & Hin & Hwire).
        exists wire. split; [done|]. rewrite Hwire. apply raises_Raise.
    - rewrite faces_from_wire_soup_not_coplanar by done.
      split; [by left|intros _; apply raises_Raise]. }
  split; [exact Hiff|].
  split; [apply faces_from_wire_soup_not_coplanar|].
  split; [intros Hplane e; by apply faces_from_wire_soup_not_closed|].
  intros Hseg. rewrite Hiff. split; [|by left].
  intros [?|(wire & _ & Hraises)]; [done|]. exfalso.
  destruct (closed_wire_Ok wire Hseg) as [wire' Hwire].
  rewrite Hwire in Hraises. by apply raises_Ok in Hraises.
Qed.

(** C7. With coplanar wires that [closed_wire] could close, two of them
    at least, the generator does not raise. What it yields and logs is,
    group after group of the dictionary, in its order: for a group whose
    list of outer wires has one wire, the face of that wire with the
    inner wires of the group as holes, and no record; for a group whose
    list of outer wires has another length, one face without holes for
    each wire of the group, outer wires first, and one warning with that
    length. *)
Theorem faces_from_wire_soup_falls_back_per_group
    (wires fixed : list TopoDS_Wire) :
  are_wires_coplanar wires = true →
  mapM closed_wire wires = Ok fixed →
  2 ≤ length fixed →
  let faces := BRepBuilderAPI_MakeFace <$> fixed in
  ∃ groups : Py.dict WireListPair,
    assign faces (build_included_in faces) = Ok groups ∧
    faces_from_wire_soup wires
    = Ok (Py.dict_values groups ≫= (λ g, (emit g).1),
          Py.dict_values groups ≫= (λ g, (emit g).2)) ∧
    ∀ outers inners, (outers, inners) ∈ Py.dict_values groups →
      (length outers ≠ 1 →
       emit (outers, inners)
       = ((λ path, MkFace path []) <$> (outers ++ inners),
          [Warning "invalid nesting (found %d outer wires)" (length outers)])) ∧
      (∀ outer, outers = [outer] →
       emit (outers, inners) = ([MkFace outer inners], [])).
Proof.
  intros Hplane Hfixed Hlen faces.
  destruct (faces_from_wire_soup_groups wires fixed) as [Hassign Hrun];
    [done..|].
  eexists. split; [exact Hassign|]. split.
  - by rewrite Hrun, emit_all_eq.
  - intros outers inners _. split.
    + apply emit_fallback.
    + intros outer ->. apply emit_single.
Qed.

End Soup.

(** ** Nesting *)

Section Nesting.
Import Coerce Shapes.
Context {K : Kernel} {SO : Py.SetOrder}.

#[local] Abbreviation Face := (TopoDS_Face TopoDS_Wire).

Implicit Types (faces : list Face) (included_in : gmap nat (gset nat)).

Lemma is_inner_Odd included_in i :
  is_inner included_in i = true ↔ Nat.Odd (size (get_ancestors included_in i)).
Proof.
  unfold is_inner. rewrite bool_decide_eq_true. split.
  - intros Hmod. exists (size (get_ancestors included_in i) / 2).
    pose proof (Nat.div_mod_eq (size (get_ancestors included_in i)) 2).
    pose proof (Nat.mod_upper_bound (size (get_ancestors included_in i)) 2).
    lia.
  - intros [m ->]. replace (2 * m + 1) with (1 + m * 2) by lia.
    by rewrite Nat.Div0.mod_add.
Qed.

Lemma is_inner_Even included_in i :
  is_inner included_in i = false ↔ Nat.Even (size (get_ancestors included_in i)).
Proof.
  split.
  - intros Hinner.
    destruct (Nat.Even_or_Odd (size (get_ancestors included_in i)))
      as [?|Hodd%is_inner_Odd]; [done|congruence].
  - intros Heven. destruct (is_inner included_in i) eqn:Hinner; [|done].
    apply is_inner_Odd in Hinner. by destruct (Nat.Even_Odd_False _ Heven).
Qed.

(** The choice of line 200: an ancestor, with the greatest number of
    ancestors, and the first of those in the order of iteration. *)
Lemma nearest_spec included_in i :
  is_inner included_in i = true →
  let depth := λ i, size (get_ancestors included_in i) in
  let p := nearest included_in i in
  p ∈ get_ancestors included_in i ∧
  (∀ a, a ∈ get_ancestors included_in i → depth a ≤ depth p) ∧
  ∃ before after,
    Py.set_iter (get_ancestors included_in i) = before ++ p :: after ∧
    ∀ a, a ∈ before → depth a < depth p.
Proof.
  intros Hinner depth p. pose proof (max_nearest _ _ Hinner) as Hmax.
  fold depth p in Hmax.
  destruct (Py.set_iter (get_ancestors included_in i)) as [|x l] eqn:Hiter;
    [done|].
  injection Hmax as Hp. split; [|split].
  - apply elem_of_set_iter. rewrite Hiter, <-Hp. apply max_from_elem.
  - intros a Ha%elem_of_set_iter. rewrite Hiter in Ha. rewrite <-Hp.
    by apply max_from_ge.
  - rewrite <-Hp. apply max_from_first.
Qed.

(** The outer list of a group has at most the outer wire of the face
    that gives the group its key, and has it when that face is not an
    inner ring. *)
Lemma group_outers faces included_in parent (k : nat)
    (outers inners : list TopoDS_Wire) :
  Py.dict_get k (foldl (record_wire included_in parent) [] (Py.enumerate faces))
  = Some (outers, inners) →
  outers
  = if is_inner included_in k then []
    else match faces !! k with
         | Some face => [face_outer_wire face]
         | None => []
         end.
Proof.
  intros Hget%record_outers. simpl in Hget. rewrite Hget.
  rewrite <-list_filter_filter, filter_fst_enumerate.
  destruct (is_inner included_in k) eqn:Hinner.
  - destruct (faces !! k); [|done].
    by rewrite filter_cons, decide_False by (simpl; congruence).
  - destruct (faces !! k); [|done].
    by rewrite filter_cons, decide_True by done.
Qed.

Section Nested.

Variable faces : list Face.
Hypothesis Hnested : nested faces.

#[local] Abbreviation included := (build_included_in faces).
#[local] Abbreviation ancestors := (get_ancestors (build_included_in faces)).

(** Among nested faces, the ancestor that line 200 picks has all the
    other ancestors of the face as its own ancestors, and no other. *)
Lemma nearest_ancestors (i : nat) :
  is_inner included i = true →
  ancestors (nearest included i) = ancestors i ∖ {[nearest included i]}.
Proof.
  intros Hinner.
  destruct (nearest_spec included i Hinner) as (Hp & Hmax & _).
  set (p := nearest included i) in *.
  assert (contained faces i p) as Hip by by apply elem_of_ancestors.
  apply set_eq. intros a. rewrite elem_of_difference, not_elem_of_singleton.
  rewrite !elem_of_ancestors. split.
  - intros Hpa. split.
    + by eapply nested_trans.
    + intros ->. destruct Hpa as (_ & _ & _ & _ & Hne & _). done.
  - intros [Hia Hne].
    destruct (nested_chain faces Hnested i a p) as [Hap|Hpa]; [done..| |done].
    exfalso.
    (* [a] inside [p]: then [a] has more ancestors than [p] *)
    assert (ancestors p ⊂ ancestors a) as Hsub%subset_size.
    { split.
      - intros x. rewrite !elem_of_ancestors. intros Hpx.
        by eapply nested_trans.
      - intros Hsub. assert (p ∈ ancestors p) as Hpp.
        { apply Hsub. by apply elem_of_ancestors. }
        apply elem_of_ancestors in Hpp as (_ & _ & _ & _ & Hpp & _). done. }
    specialize (Hmax a). rewrite elem_of_ancestors in Hmax.
    specialize (Hmax Hia). lia.
Qed.

Lemma nearest_depth (i : nat) :
  is_inner included i = true →
  size (ancestors (nearest included i)) = size (ancestors i) - 1.
Proof.
  intros Hinner. rewrite nearest_ancestors by done.
  rewrite size_difference, size_singleton; [done|].
  apply singleton_subseteq_l. by apply nearest_spec.
Qed.

Lemma nearest_is_outer (i : nat) :
  is_inner included i = true → is_inner included (nearest included i) = false.
Proof.
  intros Hinner. apply is_inner_Even. rewrite nearest_depth by done.
  apply is_inner_Odd in Hinner as [m ->]. exists m. lia.
Qed.

End Nested.

End Nesting.

(** ** Outer boundaries and holes *)

Section Parity.
Import Coerce Shapes.
Context {K : Kernel} {SO : Py.SetOrder}.

#[local] Abbreviation Face := (TopoDS_Face TopoDS_Wire).

Lemma mapM_closed_wire_closed (wires : list TopoDS_Wire) :
  (∀ w, w ∈ wires → is_wire_closed w = true) →
  mapM closed_wire wires = Ok wires.
Proof. intros H. apply mapM_id. intros w Hw. apply closed_wire_of_closed; auto. Qed.

Lemma lookup_candidate (fixed : list TopoDS_Wire) (i : nat) (w : TopoDS_Wire) :
  fixed !! i = Some w →
  (i, MkFace w []) ∈ Py.enumerate (BRepBuilderAPI_MakeFace <$> fixed).
Proof.
  intros Hi. apply elem_of_enumerate. by rewrite list_lookup_fmap, Hi.
Qed.

(** The face of a group with one outer wire is among the faces yielded. *)
Lemma group_face_yielded (wires fixed : list TopoDS_Wire) (k : nat)
    (outer : TopoDS_Wire) (inners : list TopoDS_Wire) :
  are_wires_coplanar wires = true →
  mapM closed_wire wires = Ok fixed →
  2 ≤ length fixed →
  let faces := BRepBuilderAPI_MakeFace <$> fixed in
  let included_in := build_included_in faces in
  Py.dict_get k
    (foldl (record_wire included_in (nearest included_in)) []
       (Py.enumerate faces)) = Some ([outer], inners) →
  ∃ out log, faces_from_wire_soup wires = Ok (out, log) ∧
             MkFace outer inners ∈ out.
Proof.
  intros Hplane Hfixed Hlen faces included_in Hget.
  destruct (faces_from_wire_soup_groups wires fixed) as [_ Hrun]; [done..|].
  rewrite Hrun. eexists _, _. split; [f_equal; apply surjective_pairing|].
  eapply elem_of_emit_all; [by eapply dict_get_Some_values|].
  rewrite emit_single. simpl. by apply list_elem_of_singleton.
Qed.

(** An inner ring is recorded in the inner list of the group of the
    ancestor that line 200 picks; when that ancestor is not an inner
    ring itself, its face is yielded with that list as holes. *)
Lemma inner_ring_recorded (wires fixed : list TopoDS_Wire) (i : nat)
    (w : TopoDS_Wire) :
  are_wires_coplanar wires = true →
  mapM closed_wire wires = Ok fixed →
  let faces := BRepBuilderAPI_MakeFace <$> fixed in
  let included_in := build_included_in faces in
  let p := nearest included_in i in
  fixed !! i = Some w →
  is_inner included_in i = true →
  ∃ (groups : Py.dict WireListPair) (outers inners : list TopoDS_Wire),
    assign faces included_in = Ok groups ∧
    Py.dict_get p groups = Some (outers, inners) ∧
    w ∈ inners ∧
    (is_inner included_in p = false →
     ∃ w_p out log,
       fixed !! p = Some w_p ∧
       faces_from_wire_soup wires = Ok (out, log) ∧
       MkFace w_p inners ∈ out).
Proof.
  intros Hplane Hfixed faces included_in p Hi Hinner.
  destruct (nearest_spec included_in i Hinner) as (Hp & _).
  fold p in Hp. apply elem_of_ancestors in Hp as Hip.
  assert (2 ≤ length fixed) as Hlen.
  { destruct (ancestors_lt faces i p Hip) as [Hi' Hp'].
    destruct Hip as (_ & _ & _ & _ & Hne & _).
    unfold faces in Hi', Hp'. rewrite length_fmap in Hi', Hp'. lia. }
  destruct (faces_from_wire_soup_groups wires fixed) as [Hassign Hrun];
    [done..|].
  destruct (record_inner included_in (nearest included_in)
              (Py.enumerate faces) [] i (MkFace w []))
    as (outers & inners & Hget & Hw); [by apply lookup_candidate|done|].
  eexists _, outers, inners.
  split; [exact Hassign|]. split; [exact Hget|]. split; [done|].
  intros Houter.
  pose proof (group_outers _ _ _ _ _ _ Hget) as Houters.
  fold included_in p in Houters. rewrite Houter in Houters.
  destruct Hip as (_ & face_p & _ & Hface_p & _). fold faces in Houters.
  rewrite Hface_p in Houters. unfold faces in Hface_p.
  rewrite list_lookup_fmap in Hface_p.
  destruct (fixed !! p) as [w_p|] eqn:Hw_p; [|done].
  injection Hface_p as <-. simpl in Houters. subst outers.
  destruct (group_face_yielded wires fixed p w_p inners)
    as (out & log & Hout & Hin); [done..|].
  by exists w_p, out, log.
Qed.

(** C6. An inner ring, a wire with an odd number of ancestors, goes to
    the group of the ancestor that line 200 picks. That ancestor [p] is
    one of the faces in which the wire is contained; none of them has
    more ancestors than [p]; and those that the iteration over the set
    meets before [p] have strictly fewer, so that [p] is the first met
    among the deepest. The wire is in the inner list of the group of
    [p], and when [p] itself has an even number of ancestors, the
    generator yields the face of [p] with the inner wires of that group,
    the wire among them, as holes. *)
Theorem inner_ring_goes_to_first_deepest_ancestor
    (wires fixed : list TopoDS_Wire) (i : nat) (w : TopoDS_Wire) :
  are_wires_coplanar wires = true →
  mapM closed_wire wires = Ok fixed →
  let faces := BRepBuilderAPI_MakeFace <$> fixed in
  let included_in := build_included_in faces in
  fixed !! i = Some w →
  Nat.Odd (ancestor_count faces i) →
  ∃ (p : nat) (groups : Py.dict WireListPair)
    (outers inners : list TopoDS_Wire),
    Py.max (λ i, size (get_ancestors included_in i))
           (Py.set_iter (get_ancestors included_in i)) = Ok p ∧
    contained faces i p ∧
    (∀ a, contained faces i a →
          ancestor_count faces a ≤ ancestor_count faces p) ∧
    (∃ before after,
       Py.set_iter (get_ancestors included_in i) = before ++ p :: after ∧
       ∀ a, a ∈ before → ancestor_count faces a < ancestor_count faces p) ∧
    assign faces included_in = Ok groups ∧
    Py.dict_get p groups = Some (outers, inners) ∧
    w ∈ inners ∧
    (Nat.Even (ancestor_count faces p) →
     ∃ w_p out log,
       fixed !! p = Some w_p ∧
       faces_from_wire_soup wires = Ok (out, log) ∧
       MkFace w_p inners ∈ out).
Proof.
  intros Hplane Hfixed faces included_in Hi Hodd.
  apply is_inner_Odd in Hodd as Hinner.
  destruct (nearest_spec included_in i Hinner) as (Hp & Hmax & Hfirst).
  destruct (inner_ring_recorded wires fixed i w)
    as (groups & outers & inners & Hassign & Hget & Hw & Hface); [done..|].
  exists (nearest included_in i), groups, outers, inners.
  split; [by apply max_nearest|].
  split; [by apply elem_of_ancestors|].
  split; [intros a Ha%elem_of_ancestors; by apply Hmax|].
  split; [done|]. split; [done|]. split; [done|]. split; [done|].
  intros Heven%is_inner_Even. by apply Hface.
Qed.

(** The parity rule on boundaries that do not cross. *)
Lemma parity_rule (wires : list TopoDS_Wire) :
  are_wires_coplanar wires = true →
  (∀ w, w ∈ wires → is_wire_closed w = true) →
  let faces := BRepBuilderAPI_MakeFace <$> wires in
  nested faces →
  ∃ out log,
    faces_from_wire_soup wires = Ok (out, log) ∧
    ∀ i w, wires !! i = Some w →
      (Nat.Even (ancestor_count faces i) →
       ∃ face, face ∈ out ∧ outer_wire face = w) ∧
      (Nat.Odd (ancestor_count faces i) →
       ∃ face, face ∈ out ∧ w ∈ inner_wires face).
Proof.
  intros Hplane Hclosed faces Hnested.
  pose proof (mapM_closed_wire_closed wires Hclosed) as Hfixed.
  destruct (decide (length wires < 2)) as [Hfew|Hmany].
  - (* one wire: its candidate face is yielded *)
    rewrite (faces_from_wire_soup_few wires wires) by done.
    eexists _, _. split; [done|]. intros i w Hi.
    destruct wires as [|w0 [|w1 wires]]; [done| |simpl in Hfew; lia].
    destruct i as [|i]; [|done]. injection Hi as ->. split.
    + intros _. exists (MkFace w []). split; [|done].
      simpl. by apply list_elem_of_singleton.
    + intros Hodd%is_inner_Odd%is_inner_nonempty. exfalso. apply Hodd.
      apply set_eq. intros j. rewrite elem_of_ancestors. split; [|set_solver].
      intros (_ & fj & _ & Hj & Hj0 & _). destruct j; [done|].
      by apply lookup_lt_Some in Hj; simpl in Hj; lia.
  - destruct (faces_from_wire_soup_groups wires wires) as [_ Hrun];
      [done|done|lia|].
    fold faces in Hrun.
    eexists _, _. split; [rewrite Hrun; f_equal; apply surjective_pairing|].
    intros i w Hi. split.
    + intros Heven%is_inner_Even.
      destruct (record_outer (build_included_in faces)
                  (nearest (build_included_in faces))
                  (Py.enumerate faces) [] i (MkFace w []))
        as (outers & inners & Hget & Hw); [by apply lookup_candidate|done|].
      pose proof (group_outers _ _ _ _ _ _ Hget) as Houters.
      rewrite Heven in Houters.
      unfold faces in Houters. rewrite list_lookup_fmap, Hi in Houters.
      simpl in Houters. subst outers.
      exists (MkFace w inners). split; [|done].
      eapply elem_of_emit_all; [by eapply dict_get_Some_values|].
      rewrite emit_single. simpl. by apply list_elem_of_singleton.
    + intros Hinner%is_inner_Odd.
      destruct (inner_ring_recorded wires wires i w)
        as (groups & outers & inners & Hassign & Hget & Hw & Hface);
        [done..|].
      destruct (Hface (nearest_is_outer faces Hnested i Hinner))
        as (w_p & out & log & Hw_p & Hout & Hin).
      rewrite Hrun in Hout. injection Hout as ->.
      by exists (MkFace w_p inners).
Qed.

End Parity.

(** ** Deciding the nesting of given faces *)

Section Decide.
Import Coerce Shapes.
Context {K : Kernel}.

#[local] Abbreviation Face := (TopoDS_Face TopoDS_Wire).

Lemma contained_b_spec (faces : list Face) (i j : nat) :
  contained_b faces i j = true ↔ contained faces i j.
Proof.
  unfold contained_b, contained. split.
  - destruct (faces !! i) as [fi|]; [|done].
    destruct (faces !! j) as [fj|]; [|done].
    intros [Hne%negb_true_iff%bool_decide_eq_false Hin]%andb_true_iff.
    by exists fi, fj.
  - intros (fi & fj & -> & -> & Hne & ->).
    by rewrite bool_decide_false.
Qed.

Lemma contained_b_lt (faces : list Face) (i j : nat) :
  contained_b faces i j = true →
  i ∈ seq 0 (length faces) ∧ j ∈ seq 0 (length faces).
Proof.
  intros [Hi Hj]%contained_b_spec%ancestors_lt.
  rewrite !elem_of_seq. lia.
Qed.

Lemma nested_b_nested (faces : list Face) :
  nested_b faces = true → nested faces.
Proof.
  unfold nested_b. intros Hall.
  assert (∀ i j k, i ∈ seq 0 (length faces) → j ∈ seq 0 (length faces) →
                   k ∈ seq 0 (length faces) →
    implb (contained_b faces i j) (negb (contained_b faces j i)) = true ∧
    implb (contained_b faces i j && contained_b faces j k)
          (contained_b faces i k) = true ∧
    implb (contained_b faces i j && contained_b faces i k &&
           negb (bool_decide (j = k)))
          (contained_b faces j k || contained_b faces k j) = true) as Hijk.
  { intros i j k Hi Hj Hk.
    rewrite forallb_forall in Hall.
    specialize (Hall i (proj1 (list_elem_of_In _ _) Hi)).
    rewrite forallb_forall in Hall.
    specialize (Hall j (proj1 (list_elem_of_In _ _) Hj)).
    apply andb_true_iff in Hall as [Hasym Hall].
    rewrite forallb_forall in Hall.
    specialize (Hall k (proj1 (list_elem_of_In _ _) Hk)).
    by apply andb_true_iff in Hall as [Htrans Hchain]. }
  clear Hall. split.
  - intros i j Hij%contained_b_spec Hji%contained_b_spec.
    destruct (contained_b_lt _ _ _ Hij) as [Hi Hj].
    destruct (Hijk i j i Hi Hj Hi) as (Hasym & _ & _).
    by rewrite Hij, Hji in Hasym.
  - intros i j k Hij%contained_b_spec Hjk%contained_b_spec.
    destruct (contained_b_lt _ _ _ Hij) as [Hi Hj].
    destruct (contained_b_lt _ _ _ Hjk) as [_ Hk].
    destruct (Hijk i j k Hi Hj Hk) as (_ & Htrans & _).
    rewrite Hij, Hjk in Htrans. by apply contained_b_spec.
  - intros i j k Hij%contained_b_spec Hik%contained_b_spec Hne.
    destruct (contained_b_lt _ _ _ Hij) as [Hi Hj].
    destruct (contained_b_lt _ _ _ Hik) as [_ Hk].
    destruct (Hijk i j k Hi Hj Hk) as (_ & _ & Hchain).
    rewrite Hij, Hik, bool_decide_false in Hchain by done.
    apply orb_true_iff in Hchain as [H|H]; apply contained_b_spec in H; auto.
Qed.

End Decide.

(** ** Curves *)

Section CurveFacts.
Import Coerce Curves.
Context {K : Kernel}.

Lemma bspline_to_beziers_exact bspline tolerance max_degree max_segments :
  (BSpline_Degree bspline ≤ 3)%Z →
  BSpline_IsRational bspline = false →
  bspline_to_beziers bspline tolerance max_degree max_segments
  = Ok (bezier_arcs bspline).
Proof.
  intros Hdeg Hrat. unfold bspline_to_beziers. rewrite Hrat.
  by destruct (Z.ltb_spec 3 (BSpline_Degree bspline)); [lia|].
Qed.

Lemma bspline_to_beziers_approximated bspline tolerance max_degree max_segments :
  (3 < BSpline_Degree bspline)%Z ∨ BSpline_IsRational bspline = true →
  bspline_to_beziers bspline tolerance max_degree max_segments
  = let approx :=
      GeomConvert_ApproxCurve bspline tolerance max_segments max_degree in
    if IsDone approx && HasResult approx
    then Ok (bezier_arcs (Approx_Curve approx))
    else Raise (ValueError "could not approximate b-spline").
Proof.
  intros Hcase. unfold bspline_to_beziers.
  assert ((3 <? BSpline_Degree bspline)%Z || BSpline_IsRational bspline = true)
    as ->.
  { destruct Hcase as [H| ->]; [|by rewrite orb_true_r].
    by apply Z.ltb_lt in H as ->. }
  simpl. by destruct (IsDone _ && HasResult _).
Qed.

(** C9. [bspline_to_beziers] raises exactly when the B-spline has a
    degree above 3 or is rational, and the approximation is not both done
    and with a result. A B-spline of degree at most 3 without weights is
    never approximated: whatever the tolerance, the result is the list of
    the arcs of the B-spline itself, as many as the kernel's conversion
    finds between its knots. *)
Theorem bspline_to_beziers_raises_iff_approximation_fails
    (bspline : Geom_BSplineCurve) (tolerance : float)
    (max_degree max_segments : Z) :
  (raises (bspline_to_beziers bspline tolerance max_degree max_segments) ↔
     ((3 < BSpline_Degree bspline)%Z ∨ BSpline_IsRational bspline = true) ∧
     (let approx :=
        GeomConvert_ApproxCurve bspline tolerance max_segments max_degree in
      IsDone approx && HasResult approx = false)) ∧
  ((BSpline_Degree bspline ≤ 3)%Z →
   BSpline_IsRational bspline = false →
   ∀ tolerance' : float,
     bspline_to_beziers bspline tolerance' max_degree max_segments
     = Ok (bezier_arcs bspline) ∧
     length (bezier_arcs bspline) = NbArcs bspline).
Proof.
  split.
  - destruct (decide ((3 < BSpline_Degree bspline)%Z ∨
                      BSpline_IsRational bspline = true)) as [Hcase|Hcase].
    + rewrite bspline_to_beziers_approximated by done. simpl.
      destruct (IsDone _ && HasResult _); split.
      * intros H. by apply raises_Ok in H.
      * by intros [_ ?].
      * done.
      * intros _. apply raises_Raise.
    + rewrite bspline_to_beziers_exact.
      * split; [intros H; by apply raises_Ok in H | by intros [? _]].
      * lia.
      * destruct (BSpline_IsRational bspline); [|done].
        exfalso. apply Hcase. by right.
  - intros Hdeg Hrat tolerance'. split.
    + by apply bspline_to_beziers_exact.
    + unfold bezier_arcs. by rewrite length_fmap, length_seq.
Qed.

Lemma curve_to_beziers_line adaptor tolerance max_degree max_segments :
  GetType adaptor = GeomAbs_Line →
  2 ≤ MaxDegree →
  curve_to_beziers (an_Adaptor adaptor) tolerance max_degree max_segments
  = Ok [MkBezier [Value adaptor (FirstParameter adaptor);
                  Value adaptor (FirstParameter adaptor)] None].
Proof.
  intros Htype Hmax. unfold curve_to_beziers. cbn [curve_adaptor].
  rewrite Htype. rewrite decide_True by done.
  unfold bezier_curve, BEZIER_MAX_DEGREE. cbn [length].
  assert ((2 <=? 2) && (2 <=? MaxDegree) = true) as ->.
  { apply andb_true_iff. split; apply Nat.leb_le; lia. }
  done.
Qed.

Lemma curve_to_beziers_bezier_exact adaptor tolerance max_degree max_segments :
  GetType adaptor = GeomAbs_BezierCurve →
  (max_degree < Bezier_Degree (Bezier adaptor))%Z →
  let bspline := CurveToBSplineCurve (Bezier_as_Curve (Bezier adaptor)) in
  (BSpline_Degree bspline ≤ 3)%Z →
  BSpline_IsRational bspline = false →
  curve_to_beziers (an_Adaptor adaptor) tolerance max_degree max_segments
  = Ok (bezier_arcs bspline).
Proof.
  intros Htype Hdeg bspline H3 Hrat. unfold curve_to_beziers. simpl.
  rewrite Htype. rewrite decide_False by done. rewrite decide_True by done.
  apply Z.ltb_lt in Hdeg as ->. simpl.
  by apply bspline_to_beziers_exact.
Qed.

End CurveFacts.

Section PiecewiseFacts.
Import Coerce Curves PiecewiseKernel.

(** C2. On the segment from (0, 0, 0) to (10, 0, 0), [curve_to_beziers]
    yields one segment of degree 1 whose two poles are both the curve at
    its first parameter, (0, 0, 0): the pole at the last parameter,
    (10, 0, 0), which [curve_to_polyline] does yield, is missing. *)
Theorem curve_to_beziers_line_ends_at_first_parameter :
  let origin := Pnt 0 0 0 in
  let tip := Pnt 10 0 0 in
  GetType x_segment = GeomAbs_Line ∧
  Value x_segment (FirstParameter x_segment) = origin ∧
  Value x_segment (LastParameter x_segment) = tip ∧
  curve_to_beziers (an_Adaptor x_segment) 0.5 3 100
  = Ok [MkBezier [origin; origin] None] ∧
  curve_to_beziers (an_Adaptor x_segment) 0.5 3 100
  ≠ Ok [MkBezier [origin; tip] None] ∧
  curve_to_polyline (an_Adaptor x_segment) 0.5 = Ok [origin; tip].
Proof.
  intros origin tip.
  assert (curve_to_beziers (an_Adaptor x_segment) 0.5 3 100
          = Ok [MkBezier [origin; origin] None]) as Hrun.
  { rewrite curve_to_beziers_line; [|done|simpl; lia].
    by vm_compute. }
  split; [done|]. split; [by vm_compute|]. split; [by vm_compute|].
  split; [exact Hrun|]. split; [|by vm_compute].
  rewrite Hrun. discriminate.
Qed.

(** C3. With [max_degree = 2], a cubic Bezier curve without weights comes
    out of [curve_to_beziers] as it went in, with degree 3: its B-spline
    form has degree 3, which [bspline_to_beziers] compares with the
    constant 3 and not with [max_degree], so that it is split and not
    approximated. The same holds for [bspline_to_beziers] on the B-spline
    itself. *)
Theorem curve_to_beziers_cubic_exceeds_max_degree :
  let max_degree := 2%Z in
  GetType (BezierCurve cubic) = GeomAbs_BezierCurve ∧
  Bezier_IsRational cubic = false ∧
  curve_to_beziers (an_Adaptor (BezierCurve cubic)) 0.5 max_degree 100
  = Ok [cubic] ∧
  bspline_to_beziers (curve_to_bspline (BezierCurve cubic)) 0.5 max_degree 100
  = Ok [cubic] ∧
  Bezier_Degree cubic = 3%Z ∧
  ¬ (Bezier_Degree cubic ≤ max_degree)%Z.
Proof.
  intros max_degree.
  split; [done|]. split; [done|].
  split; [rewrite curve_to_beziers_bezier_exact; by vm_compute|].
  split; [|by vm_compute].
  unfold curve_to_bspline. rewrite bspline_to_beziers_exact; by vm_compute.
Qed.

Lemma bspline_to_beziers_raises_iff_approximation_fails_witness :
  let bspline := to_bspline (BezierCurve cubic) in
  bspline_to_beziers bspline 0.5 3 100 = Ok (bezier_arcs bspline) ∧
  length (bezier_arcs bspline) = NbArcs bspline.
Proof.
  intros bspline.
  apply (proj2 (bspline_to_beziers_raises_iff_approximation_fails
                  (K:=kernel) bspline 0.5 3 100)); by vm_compute.
Defined.

End PiecewiseFacts.

(** ** Wires made of segments *)

Section SegmentFacts.
Import Coerce Shapes SegmentKernel.

Lemma same_float_refl (x : float) : same_float x x = true.
Proof. unfold same_float. by apply bool_decide_eq_true. Qed.

Lemma same_float_sym (x y : float) : same_float x y = same_float y x.
Proof. unfold same_float. apply bool_decide_ext. split; by intros ->. Qed.

Lemma same_point_refl (p : gp_Pnt) : same_point p p = true.
Proof. unfold same_point. by rewrite !same_float_refl. Qed.

Lemma same_point_sym (p q : gp_Pnt) : same_point p q = same_point q p.
Proof.
  unfold same_point.
  by rewrite (same_float_sym (Pnt_X p)), (same_float_sym (Pnt_Y p)),
             (same_float_sym (Pnt_Z p)).
Qed.

Lemma closed_wire_idempotent_witness :
  closed_wire two_sides = Ok triangle ∧
  ∃ closed', closed_wire triangle = Ok closed' ∧ closed' = triangle.
Proof.
  assert (closed_wire two_sides = Ok triangle) as Hrun
    by (vm_compute; reflexivity).
  split; [exact Hrun|].
  apply (closed_wire_idempotent (K := kernel) eq) with (wire := two_sides).
  - intros w. reflexivity.
  - intros w. reflexivity.
  - intros w Hw. exact Hw.
  - intros w e. reflexivity.
  - intros p q curve. simpl. destruct (same_point p q); [done|].
    intros [= <-]. vm_compute value. apply same_point_refl.
  - exact Hrun.
Defined.

Lemma faces_from_wire_soup_raises_iff_not_coplanar_or_not_closed_witness :
  faces_from_wire_soup [triangle; lifted_triangle]
  = Raise (ValueError "wires not coplanar") ∧
  (raises (faces_from_wire_soup [two_sides]) ↔
     are_wires_coplanar [two_sides] = false) ∧
  faces_from_wire_soup [two_sides] = Ok ([MkFace triangle []], []).
Proof.
  destruct (faces_from_wire_soup_raises_iff_not_coplanar_or_not_closed
              (K := kernel) (SO := elements_order)) as [Hwires _].
  split; [|split].
  - apply (proj1 (proj2 (Hwires [triangle; lifted_triangle]))).
    vm_compute. reflexivity.
  - apply (proj2 (proj2 (proj2 (Hwires [two_sides])))).
    intros p q Hpq. simpl in *. rewrite same_point_sym, Hpq. by eexists.
  - vm_compute. reflexivity.
Defined.

End SegmentFacts.

(** ** Wires with a closed flag *)

Section SewnFacts.
Import Coerce Shapes SewnKernel.

Lemma closed_wire_returns_closed_or_short_wire_witness :
  closed_wire sewn_triangle = Ok sewn_triangle ∧
  closed_wire one_side = Ok one_side ∧
  closed_wire loose_triangle = Ok sewn_triangle.
Proof.
  split; [|split].
  - apply (proj1 (closed_wire_returns_closed_or_short_wire (K := kernel) sewn_triangle)).
    left. reflexivity.
  - apply (proj1 (closed_wire_returns_closed_or_short_wire (K := kernel) one_side)).
    right. simpl. lia.
  - apply (proj2 (closed_wire_returns_closed_or_short_wire (K := kernel) loose_triangle)).
    + reflexivity.
    + simpl. lia.
    + vm_compute. reflexivity.
Defined.

(** The triangle made of its three edges has ends that meet, and
    [closed_wire] does not return it as it is: it returns the wire that
    the repair made of it. *)
Lemma closed_wire_repairs_wire_whose_ends_meet :
  wire_from_continuous_edges SegmentKernel.triangle false = Ok loose_triangle ∧
  is_wire_closed loose_triangle = false ∧
  ends_meet loose_triangle = true ∧
  closed_wire loose_triangle = Ok (ShapeFix_Wire loose_triangle _TOLERANCE) ∧
  closed_wire loose_triangle ≠ Ok loose_triangle.
Proof.
  split; [reflexivity|]. split; [reflexivity|].
  split; [vm_compute; reflexivity|]. split; [vm_compute; reflexivity|].
  vm_compute. discriminate.
Qed.

End SewnFacts.

(** ** Open wires that cannot be closed *)

Section OpenFacts.
Import Coerce Shapes.

(** Two sides of a triangle lie in a plane, and [faces_from_wire_soup]
    raises on them when the kernel does not make the segment that closes
    them: with ends that are further apart than the kernel allows, what
    the kernel raises; with a kernel in which no segment is done, the
    [ValueError] of [segment_curve]. *)
Lemma faces_from_wire_soup_raises_on_coplanar_open_wire :
  (are_wires_coplanar (K := BoundedKernel.kernel) [BoundedKernel.wide_sides]
   = true ∧
   faces_from_wire_soup (K := BoundedKernel.kernel) (SO := elements_order)
     [BoundedKernel.wide_sides]
   = Raise (KernelError "Standard_ConstructionError")) ∧
  (are_wires_coplanar (K := OpenKernel.kernel) [SegmentKernel.two_sides]
   = true ∧
   faces_from_wire_soup (K := OpenKernel.kernel) (SO := elements_order)
     [SegmentKernel.two_sides]
   = Raise (ValueError "could not make segment curve")).
Proof. repeat split; vm_compute; reflexivity. Qed.

End OpenFacts.

(** ** Three circles around the origin *)

Section CircleFacts.
Import Coerce Shapes LabelKernel.

#[local] Existing Instance circles.

#[local] Abbreviation circle_faces :=
  (BRepBuilderAPI_MakeFace <$> three_circles).

Lemma three_circles_closed :
  mapM closed_wire three_circles = Ok three_circles.
Proof.
  apply (mapM_closed_wire_closed (K := circles)). intros w _. reflexivity.
Qed.

Lemma three_circles_nested : nested circle_faces.
Proof. apply nested_b_nested. vm_compute. reflexivity. Qed.

(** The circle of radius 7 has one ancestor, the circle of radius 10. *)
Lemma middle_circle_ancestors :
  get_ancestors (build_included_in circle_faces) 1 = {[0]}.
Proof. vm_compute. reflexivity. Qed.

(** Whatever the order in which a set is iterated, the three circles of
    radius 10, 7 and 3 make two faces, and no warning: the first between
    the circles of radius 10 and 7, the second within the circle of
    radius 3. *)
Lemma three_circles_faces (SO : Py.SetOrder) :
  faces_from_wire_soup three_circles
  = Ok ([MkFace 10%float [7%float]; MkFace 3%float []], []).
Proof.
  rewrite (faces_from_wire_soup_record (K := circles)
             three_circles three_circles (λ _, 0)).
  - vm_compute. reflexivity.
  - reflexivity.
  - exact three_circles_closed.
  - simpl. lia.
  - intros i Hi Hinner. simpl in Hi.
    destruct i as [|[|[|i]]]; [by vm_compute in Hinner| |
                               by vm_compute in Hinner|lia].
    rewrite middle_circle_ancestors.
    pose proof (Py.set_iter_perm {[0]}) as Hperm.
    rewrite elements_singleton in Hperm.
    apply Permutation_singleton_r in Hperm as ->. reflexivity.
Qed.

End CircleFacts.

(** C1. For closed coplanar wires whose candidate faces are nested, with
    any kernel and any order of iteration over sets: the generator does
    not raise; each wire with an even number of ancestors is the outer
    wire of a face that it yields, and each wire with an odd number of
    ancestors is among the holes of a face that it yields. The circles
    of radius 10, 7 and 3 make the two faces (10, holes [7]) and
    (3, no hole), and nothing else. *)
Theorem faces_from_wire_soup_parity_rule :
  (∀ (K : Shapes.Kernel) (SO : Py.SetOrder)
     (wires : list Shapes.TopoDS_Wire),
     Shapes.are_wires_coplanar wires = true →
     (∀ w, w ∈ wires → Shapes.is_wire_closed w = true) →
     let faces := Shapes.BRepBuilderAPI_MakeFace <$> wires in
     Shapes.nested faces →
     ∃ out log,
       Shapes.faces_from_wire_soup wires = Ok (out, log) ∧
       ∀ i w, wires !! i = Some w →
         (Nat.Even (Shapes.ancestor_count faces i) →
          ∃ face, face ∈ out ∧ Shapes.outer_wire face = w) ∧
         (Nat.Odd (Shapes.ancestor_count faces i) →
          ∃ face, face ∈ out ∧ w ∈ Shapes.inner_wires face)) ∧
  (∀ SO : Py.SetOrder,
     Shapes.faces_from_wire_soup (K := LabelKernel.circles)
       LabelKernel.three_circles
     = Ok ([Shapes.MkFace 10%float [7%float]; Shapes.MkFace 3%float []], [])).
Proof.
  split.
  - intros K SO wires. apply parity_rule.
  - apply three_circles_faces.
Qed.

Section LabelWitnesses.
Import Coerce Shapes LabelKernel.

Lemma faces_from_wire_soup_parity_rule_witness :
  ∃ out log,
    faces_from_wire_soup (K := circles) three_circles = Ok (out, log) ∧
    ∀ i w, three_circles !! i = Some w →
      (Nat.Even (ancestor_count (K := circles)
                   (BRepBuilderAPI_MakeFace (K := circles) <$> three_circles) i) →
       ∃ face, face ∈ out ∧ outer_wire face = w) ∧
      (Nat.Odd (ancestor_count (K := circles)
                  (BRepBuilderAPI_MakeFace (K := circles) <$> three_circles) i) →
       ∃ face, face ∈ out ∧ w ∈ inner_wires face).
Proof.
  apply (proj1 faces_from_wire_soup_parity_rule circles elements_order
           three_circles).
  - reflexivity.
  - intros w _. reflexivity.
  - exact three_circles_nested.
Defined.

Lemma inner_ring_goes_to_first_deepest_ancestor_witness :
  (let K := circles in
   let wires := LabelSamples.four_circles in
   let faces := BRepBuilderAPI_MakeFace <$> wires in
   let included_in := build_included_in faces in
   ∃ (p : nat) (groups : Py.dict (list float * list float))
     (outers inners : list float),
     (Py.max (λ i, size (get_ancestors included_in i))
             (Py.set_iter (get_ancestors included_in 3)) = Ok p ∧
      contained faces 3 p ∧
      (∀ a, contained faces 3 a →
            ancestor_count faces a ≤ ancestor_count faces p) ∧
      (∃ before after,
         Py.set_iter (get_ancestors included_in 3) = before ++ p :: after ∧
         ∀ a, a ∈ before → ancestor_count faces a < ancestor_count faces p) ∧
      assign faces included_in = Ok groups ∧
      Py.dict_get p groups = Some (outers, inners) ∧
      3%float ∈ inners ∧
      (Nat.Even (ancestor_count faces p) →
       ∃ w_p out log,
         wires !! p = Some w_p ∧
         faces_from_wire_soup wires = Ok (out, log) ∧
         MkFace w_p inners ∈ out)) ∧
     get_ancestors included_in 3 = {[0; 1; 2]} ∧
     p = 2) ∧
  (let K := LabelSamples.overlap in
   let wires := [0; 1; 2; 3] in
   let faces := BRepBuilderAPI_MakeFace <$> wires in
   let included_in := build_included_in faces in
   ∃ (p : nat) (groups : Py.dict (list nat * list nat))
     (outers inners : list nat),
     (Py.max (λ i, size (get_ancestors included_in i))
             (Py.set_iter (get_ancestors included_in 3)) = Ok p ∧
      contained faces 3 p ∧
      (∀ a, contained faces 3 a →
            ancestor_count faces a ≤ ancestor_count faces p) ∧
      (∃ before after,
         Py.set_iter (get_ancestors included_in 3) = before ++ p :: after ∧
         ∀ a, a ∈ before → ancestor_count faces a < ancestor_count faces p) ∧
      assign faces included_in = Ok groups ∧
      Py.dict_get p groups = Some (outers, inners) ∧
      3 ∈ inners ∧
      (Nat.Even (ancestor_count faces p) →
       ∃ w_p out log,
         wires !! p = Some w_p ∧
         faces_from_wire_soup wires = Ok (out, log) ∧
         MkFace w_p inners ∈ out)) ∧
     get_ancestors included_in 3 = {[0; 1; 2]} ∧
     (∀ a, a ∈ [0; 1; 2] → ancestor_count faces a = 0) ∧
     head (Py.set_iter (get_ancestors included_in 3)) = Some p).
Proof.
  split.
  - intros K wires faces included_in.
    destruct (inner_ring_goes_to_first_deepest_ancestor
                (K := circles) (SO := elements_order)
                LabelSamples.four_circles LabelSamples.four_circles 3 3%float)
      as (p & groups & outers & inners & Hmax & Hrest).
    + reflexivity.
    + apply (mapM_closed_wire_closed (K := circles)). intros w _. reflexivity.
    + reflexivity.
    + exists 1. vm_compute. reflexivity.
    + exists p, groups, outers, inners.
      split; [exact (conj Hmax Hrest)|].
      split; [vm_compute; reflexivity|].
      vm_compute in Hmax. by injection Hmax as <-.
  - intros K wires faces included_in.
    destruct (inner_ring_goes_to_first_deepest_ancestor
                (K := LabelSamples.overlap) (SO := elements_order)
                [0; 1; 2; 3] [0; 1; 2; 3] 3 3)
      as (p & groups & outers & inners & Hmax & Hrest).
    + reflexivity.
    + apply (mapM_closed_wire_closed (K := LabelSamples.overlap)).
      intros w _. reflexivity.
    + reflexivity.
    + exists 1. vm_compute. reflexivity.
    + exists p, groups, outers, inners.
      split; [exact (conj Hmax Hrest)|].
      split; [vm_compute; reflexivity|].
      split.
      * intros a Ha. repeat (apply elem_of_cons in Ha as [->|Ha];
                             [vm_compute; reflexivity|]).
        by apply elem_of_nil in Ha.
      * vm_compute in Hmax. injection Hmax as <-. vm_compute. reflexivity.
Defined.

Lemma faces_from_wire_soup_falls_back_per_group_witness :
  faces_from_wire_soup (K := broken) [0; 1; 2]
  = Ok ([MkFace 0 [1]; MkFace 2 []],
        [Warning "invalid nesting (found %d outer wires)" 0]).
Proof.
  destruct (faces_from_wire_soup_falls_back_per_group
              (K := broken) (SO := elements_order) [0; 1; 2] [0; 1; 2])
    as (groups & Hassign & Hrun & _).
  - reflexivity.
  - vm_compute. reflexivity.
  - simpl. lia.
  - vm_compute in Hassign. injection Hassign as <-.
    rewrite Hrun. vm_compute. reflexivity.
Defined.

End LabelWitnesses.

(** * Further properties *)

(** ** Coercion, continued *)

Section CoerceMore.
Import Coerce.

Lemma as_triple_Ok_or_bad_tuple (p : VecLike) :
  (∃ xyz, as_triple p = Ok xyz) ∨
  (∃ t, p = of_tuple t ∧ length t ≠ 2 ∧ length t ≠ 3).
Proof.
  destruct p as [q|q|q|q|t]; try (left; by eexists).
  destruct t as [|x [|y [|z [|w t]]]]; simpl;
    try (left; by eexists); right; eexists; (split; [done|simpl; lia]).
Qed.

(** X1. The coercions raise on nothing but a tuple of a wrong length:
    [as_triple], [as_Pnt] and [as_Vec] raise exactly on the tuples whose
    length is neither 2 nor 3, and never on a kernel point, vector,
    coordinate triple or direction. *)
Theorem coercions_raise_iff_bad_tuple (p : VecLike) :
  let bad := ∃ t, p = of_tuple t ∧ length t ≠ 2 ∧ length t ≠ 3 in
  (raises (as_triple p) ↔ bad) ∧
  (raises (as_Pnt p) ↔ bad) ∧
  (raises (as_Vec p) ↔ bad).
Proof.
  intros bad.
  assert (bad → as_triple p = Raise (ValueError "cannot make point")) as Hbad.
  { intros (t & -> & H2 & H3). by apply as_triple_bad_length. }
  assert (raises (as_triple p) → bad) as Hraises.
  { intros [e He]. destruct (as_triple_Ok_or_bad_tuple p) as [[xyz Hok]|?];
      [congruence|done]. }
  split; [|split].
  - split; [done|]. intros ->%Hbad. apply raises_Raise.
  - split.
    + intros [e He]. apply Hraises. unfold as_Pnt in He.
      destruct p; try done; destruct (as_triple _) as [[[x y] z]|e'];
        try done; apply raises_Raise.
    + intros Hp. pose proof Hp as (t & -> & _). unfold as_Pnt.
      rewrite (Hbad Hp). apply raises_Raise.
  - split.
    + intros [e He]. apply Hraises. unfold as_Vec in He.
      destruct p; try done; destruct (as_triple _) as [[[x y] z]|e'];
        try done; apply raises_Raise.
    + intros Hp. pose proof Hp as (t & -> & _). unfold as_Vec.
      rewrite (Hbad Hp). apply raises_Raise.
Qed.

(** X2. A point or a vector made by [as_Pnt] or [as_Vec] has the
    coordinates that [as_triple] reads in the argument (a pair gets
    z = 0.0), and coercing it again changes nothing. *)
Theorem as_Pnt_as_Vec_keep_coordinates (p : VecLike) :
  (∀ q, as_Pnt p = Ok q →
        as_triple (of_Pnt q) = as_triple p ∧ as_Pnt (of_Pnt q) = Ok q) ∧
  (∀ v, as_Vec p = Ok v →
        as_triple (of_Vec v) = as_triple p ∧ as_Vec (of_Vec v) = Ok v).
Proof.
  split.
  - intros q Hq. split; [|done]. unfold as_Pnt in Hq.
    destruct p as [q'|q'|q'|q'|t]; try (injection Hq as <-; done).
    destruct (as_triple (of_tuple t)) as [[[x y] z]|e]; [|done].
    by injection Hq as <-.
  - intros v Hv. split; [|done]. unfold as_Vec in Hv.
    destruct p as [q'|q'|q'|q'|t]; try (injection Hv as <-; done).
    destruct (as_triple (of_tuple t)) as [[[x y] z]|e]; [|done].
    by injection Hv as <-.
Qed.

Lemma as_Pnt_as_Vec_keep_coordinates_witness :
  as_triple (of_Pnt (Pnt 1 2 0)) = as_triple (of_tuple [1%float; 2%float]) ∧
  as_Pnt (of_Pnt (Pnt 1 2 0)) = Ok (Pnt 1 2 0).
Proof.
  apply (proj1 (as_Pnt_as_Vec_keep_coordinates (of_tuple [1%float; 2%float]))).
  reflexivity.
Defined.

End CoerceMore.

(** ** Curves, continued *)

Section CurveMore.
Import Coerce Curves.
Context {K : Kernel}.

Lemma as_Pnt_Raise (c : VecLike) (e : exn) :
  as_Pnt c = Raise e → e = ValueError "cannot make point".
Proof.
  unfold as_Pnt. destruct c as [q|q|q|q|t]; try done.
  destruct t as [|x [|y [|z [|w t]]]]; simpl; congruence.
Qed.

(** X3. [bezier_curve] checks the number of control points before it
    looks at any of them: outside of 2 .. [BEZIER_MAX_DEGREE] it raises
    the [ValueError] of line 315, also when a control point is a tuple
    that [as_Pnt] refuses. Within these bounds it raises exactly when
    [as_Pnt] refuses a control point, and then what [as_Pnt] raises.
    When it returns, the curve has no weights and one pole for each
    control point, in order, which is the control point coerced by
    [as_Pnt]; its degree is below [BEZIER_MAX_DEGREE] (the bound is on
    the number of points, not on the degree). *)
Theorem bezier_curve_builds_or_refuses (controls : list VecLike) :
  let n := length controls in
  (¬ (2 ≤ n ≤ BEZIER_MAX_DEGREE) →
   bezier_curve controls
   = Raise (ValueError
              "bezier curve must have between 2 and MaxDegree control points")) ∧
  (2 ≤ n ≤ BEZIER_MAX_DEGREE →
   (∃ c, c ∈ controls ∧ raises (as_Pnt c)) →
   bezier_curve controls = Raise (ValueError "cannot make point")) ∧
  (∀ b, bezier_curve controls = Ok b →
     2 ≤ n ≤ BEZIER_MAX_DEGREE ∧
     Bezier_IsRational b = false ∧
     Bezier_Degree b = (Z.of_nat n - 1)%Z ∧
     (Bezier_Degree b < Z.of_nat BEZIER_MAX_DEGREE)%Z ∧
     length (Poles b) = n ∧
     ∀ i c, controls !! i = Some c →
            ∃ p, as_Pnt c = Ok p ∧ Poles b !! i = Some p) ∧
  (raises (bezier_curve controls) ↔
     n < 2 ∨ BEZIER_MAX_DEGREE < n ∨ ∃ c, c ∈ controls ∧ raises (as_Pnt c)).
Proof.
  intros n. unfold bezier_curve. fold n.
  destruct (Nat.leb_spec 2 n) as [H2|H2];
    destruct (Nat.leb_spec n BEZIER_MAX_DEGREE) as [Hmax|Hmax]; simpl.
  2-4: split; [done|]; split; [intros ?; lia|]; split; [done|];
       split; [intros _; lia|intros _; apply raises_Raise].
  split; [intros ?; lia|].
  destruct (mapM as_Pnt controls) as [poles|e] eqn:Hpoles; simpl.
  - destruct (mapM_Ok_inv _ _ _ Hpoles) as [Hlen Hall]. fold n in Hlen.
    assert (¬ ∃ c, c ∈ controls ∧ raises (as_Pnt c)) as Hgood.
    { intros (c & Hc & Hraises). apply (raises_Ok poles). rewrite <-Hpoles.
      by eapply mapM_raises. }
    split; [by intros _ ?|]. split.
    + intros b [= <-]. unfold Bezier_Degree. simpl. rewrite Hlen.
      repeat split; try done; lia.
    + split; [by intros ?%raises_Ok|].
      intros [?|[?|?]]; [lia..|done].
  - destruct (mapM_Raise_inv _ _ _ Hpoles) as (c & Hc & He).
    pose proof (as_Pnt_Raise _ _ He) as ->.
    split; [done|]. split; [done|].
    split; [|intros _; apply raises_Raise]. intros _. right. right.
    exists c. split; [done|]. rewrite He. apply raises_Raise.
Qed.

(** What [bspline_to_beziers] returns: the arcs of the B-spline itself
    or of its approximation. *)
Lemma bspline_to_beziers_Ok (bspline : Geom_BSplineCurve) (tolerance : float)
    (max_degree max_segments : Z) (out : list Geom_BezierCurve) :
  bspline_to_beziers bspline tolerance max_degree max_segments = Ok out →
  ((BSpline_Degree bspline ≤ 3)%Z ∧ BSpline_IsRational bspline = false ∧
   out = bezier_arcs bspline) ∨
  (let approx :=
     GeomConvert_ApproxCurve bspline tolerance max_segments max_degree in
   IsDone approx && HasResult approx = true ∧
   out = bezier_arcs (Approx_Curve approx)).
Proof.
  destruct (decide ((3 < BSpline_Degree bspline)%Z ∨
                    BSpline_IsRational bspline = true)) as [Hcase|Hcase].
  - rewrite bspline_to_beziers_approximated by done. simpl.
    destruct (IsDone _ && HasResult _); [|done].
    intros [= <-]. by right.
  - rewrite bspline_to_beziers_exact.
    + intros [= <-]. left. split; [lia|]. split; [|done].
      destruct (BSpline_IsRational bspline); [|done]. exfalso. auto.
    + lia.
    + destruct (BSpline_IsRational bspline); [|done]. exfalso. auto.
Qed.

Lemma elem_of_bezier_arcs (bspline : Geom_BSplineCurve) (b : Geom_BezierCurve) :
  b ∈ bezier_arcs bspline ↔ ∃ i, 1 ≤ i ≤ NbArcs bspline ∧ b = Arc bspline i.
Proof.
  unfold bezier_arcs. rewrite list_elem_of_fmap. split.
  - intros (i & -> & Hi%elem_of_seq). exists (i + 1). split; [lia|done].
  - intros (i & Hi & ->). exists (i - 1). split.
    + f_equal. lia.
    + apply elem_of_seq. lia.
Qed.

Section DegreeBound.

(** What the kernel promises of its conversions: an arc of a B-spline
    has the degree of the B-spline and weights when the B-spline has
    weights; an approximation that is done has a degree within the
    bound it was asked for, and no weights. *)
Variable max_degree : Z.
Hypothesis max_degree_cubic : (3 ≤ max_degree)%Z.
Hypothesis arc_degree : ∀ s i,
  1 ≤ i ≤ NbArcs s →
  Bezier_Degree (Arc s i) = BSpline_Degree s ∧
  Bezier_IsRational (Arc s i) = BSpline_IsRational s.
Hypothesis approx_degree : ∀ s tolerance max_segments,
  let approx := GeomConvert_ApproxCurve s tolerance max_segments max_degree in
  IsDone approx && HasResult approx = true →
  (BSpline_Degree (Approx_Curve approx) ≤ max_degree)%Z ∧
  BSpline_IsRational (Approx_Curve approx) = false.

Lemma bspline_to_beziers_bounded (bspline : Geom_BSplineCurve)
    (tolerance : float) (max_segments : Z) (out : list Geom_BezierCurve)
    (b : Geom_BezierCurve) :
  bspline_to_beziers bspline tolerance max_degree max_segments = Ok out →
  b ∈ out →
  (Bezier_Degree b ≤ max_degree)%Z ∧ Bezier_IsRational b = false.
Proof.
  intros [(Hdeg & Hrat & ->)|[Hdone ->]]%bspline_to_beziers_Ok
         (i & Hi & ->)%elem_of_bezier_arcs;
    destruct (arc_degree _ i Hi) as [-> ->].
  - split; [lia|done].
  - by apply approx_degree.
Qed.

(** X4. With a bound [max_degree] of 3 or more, and a kernel that keeps
    these promises, every segment that [curve_to_beziers] or
    [bspline_to_beziers] yields has a degree of at most [max_degree] and
    no weights. *)
Theorem beziers_within_max_degree_from_cubic
    (curve_or_adaptor : CurveOrAdaptor) (bspline : Geom_BSplineCurve)
    (tolerance : float) (max_segments : Z) :
  (∀ out b,
     curve_to_beziers curve_or_adaptor tolerance max_degree max_segments
     = Ok out →
     b ∈ out →
     (Bezier_Degree b ≤ max_degree)%Z ∧ Bezier_IsRational b = false) ∧
  (∀ out b,
     bspline_to_beziers bspline tolerance max_degree max_segments = Ok out →
     b ∈ out →
     (Bezier_Degree b ≤ max_degree)%Z ∧ Bezier_IsRational b = false).
Proof.
  split; [|intros out b; apply bspline_to_beziers_bounded].
  intros out b. unfold curve_to_beziers.
  set (adaptor := curve_adaptor curve_or_adaptor).
  destruct (decide (GetType adaptor = GeomAbs_Line)).
  { unfold bezier_curve. simpl.
    destruct BEZIER_MAX_DEGREE as [|[|m]]; simpl; [done|done|].
    intros [= <-] ->%list_elem_of_singleton. unfold Bezier_Degree. simpl.
    split; [lia|done]. }
  destruct (decide (GetType adaptor = GeomAbs_BezierCurve)).
  { destruct (Z.ltb_spec max_degree (Bezier_Degree (Bezier adaptor)));
      simpl; [apply bspline_to_beziers_bounded|].
    destruct (Bezier_IsRational (Bezier adaptor)) eqn:Hrat;
      [apply bspline_to_beziers_bounded|].
    by intros [= <-] ->%list_elem_of_singleton. }
  destruct (decide (GetType adaptor = GeomAbs_BSplineCurve));
    apply bspline_to_beziers_bounded.
Qed.

End DegreeBound.

(** X5. When the kernel can make a Bezier curve of two poles, the one
    [ValueError] that [curve_to_beziers] raises is that of a failed
    approximation (line 457): never on a line, never on a Bezier curve
    without weights whose degree is within [max_degree], and on any
    other curve only when the B-spline that it hands to
    [bspline_to_beziers] has a degree above 3 or weights and its
    approximation is not done, or has no result. *)
Theorem curve_to_beziers_raises_only_on_failed_approximation
    (curve_or_adaptor : CurveOrAdaptor) (tolerance : float)
    (max_degree max_segments : Z) (msg : string) :
  2 ≤ BEZIER_MAX_DEGREE →
  curve_to_beziers curve_or_adaptor tolerance max_degree max_segments
  = Raise (ValueError msg) →
  let adaptor := curve_adaptor curve_or_adaptor in
  msg = "could not approximate b-spline" ∧
  GetType adaptor ≠ GeomAbs_Line ∧
  (GetType adaptor = GeomAbs_BezierCurve →
   (max_degree < Bezier_Degree (Bezier adaptor))%Z ∨
   Bezier_IsRational (Bezier adaptor) = true) ∧
  ∃ bspline,
    bspline_to_beziers bspline tolerance max_degree max_segments
    = Raise (ValueError msg) ∧
    ((3 < BSpline_Degree bspline)%Z ∨ BSpline_IsRational bspline = true) ∧
    (let approx :=
       GeomConvert_ApproxCurve bspline tolerance max_segments max_degree in
     IsDone approx && HasResult approx = false).
Proof.
  intros Hmax Hrun adaptor.
  assert (∀ bspline,
    bspline_to_beziers bspline tolerance max_degree max_segments
    = Raise (ValueError msg) →
    msg = "could not approximate b-spline" ∧
    ∃ bspline,
      bspline_to_beziers bspline tolerance max_degree max_segments
      = Raise (ValueError msg) ∧
      ((3 < BSpline_Degree bspline)%Z ∨ BSpline_IsRational bspline = true) ∧
      (let approx :=
         GeomConvert_ApproxCurve bspline tolerance max_segments max_degree in
       IsDone approx && HasResult approx = false)) as Hspline.
  { intros bspline Hraise. pose proof Hraise as Hraise'.
    destruct (decide ((3 < BSpline_Degree bspline)%Z ∨
                      BSpline_IsRational bspline = true)) as [Hcase|Hcase].
    - rewrite bspline_to_beziers_approximated in Hraise by done.
      simpl in Hraise.
      destruct (IsDone _ && HasResult _) eqn:Hdone; [done|].
      injection Hraise as <-. split; [done|]. by exists bspline.
    - rewrite bspline_to_beziers_exact in Hraise; [done|lia|].
      destruct (BSpline_IsRational bspline); [|done]. exfalso. auto. }
  unfold curve_to_beziers in Hrun. fold adaptor in Hrun.
  destruct (decide (GetType adaptor = GeomAbs_Line)) as [Hline|Hline].
  { unfold bezier_curve in Hrun. simpl in Hrun.
    destruct BEZIER_MAX_DEGREE as [|[|m]]; [lia|lia|done]. }
  destruct (decide (GetType adaptor = GeomAbs_BezierCurve)) as [Hbez|Hbez].
  { destruct (Z.ltb_spec max_degree (Bezier_Degree (Bezier adaptor)));
      simpl in Hrun.
    - destruct (Hspline _ Hrun) as [-> Hex]. repeat split; auto.
    - destruct (Bezier_IsRational (Bezier adaptor)) eqn:Hrat; [|done].
      destruct (Hspline _ Hrun) as [-> Hex]. repeat split; auto. }
  destruct (decide (GetType adaptor = GeomAbs_BSplineCurve));
    destruct (Hspline _ Hrun) as [-> Hex]; repeat split; auto; done.
Qed.

End CurveMore.

(** ** Wires, continued *)

Section WireMore.
Import Coerce Shapes.
Context {K : Kernel}.

Lemma drain_is_last {A : Type} (e : A) (it : list A) :
  last (e :: it) = Some (drain e it).
Proof.
  revert e. induction it as [|x it IH]; intros e; [done|].
  simpl. rewrite <-IH. done.
Qed.

(** The two edges that [closed_wire] compares. *)
Lemma ends_of_long (e1 e2 : TopoDS_Edge) (it : list TopoDS_Edge)
    (first_edge last_edge : TopoDS_Edge) :
  head (e1 :: e2 :: it) = Some first_edge →
  last (e1 :: e2 :: it) = Some last_edge →
  first_edge = e1 ∧ last_edge = drain e2 it.
Proof.
  intros [= <-] Hlast. split; [done|].
  rewrite drain_is_last in Hlast. by injection Hlast as <-.
Qed.

(** X6. [closed_wire] raises exactly on a wire that is not closed,
    has two edges or more, whose first edge does not start where its
    last edge ends, and for which the kernel makes no segment from that
    end to that start; what it raises is the [ValueError] of
    [segment_curve] when line 308 catches what the kernel raised, and
    what the kernel raised otherwise. The [StopIteration] of the
    iterator never leaves it. *)
Theorem closed_wire_raises_only_on_failed_segment (wire : TopoDS_Wire) :
  (∀ e,
     closed_wire wire = Raise e ↔
     is_wire_closed wire = false ∧
     ∃ first_edge last_edge,
       2 ≤ length (TopoDS_Iterator wire) ∧
       head (TopoDS_Iterator wire) = Some first_edge ∧
       last (TopoDS_Iterator wire) = Some last_edge ∧
       let start := Value first_edge (FirstParameter first_edge) in
       let end_ := Value last_edge (LastParameter last_edge) in
       IsEqual start end_ _TOLERANCE = false ∧
       ((GC_MakeSegment end_ start = NotDone ∧
         e = ValueError "could not make segment curve") ∨
        (∃ name, GC_MakeSegment end_ start = Failed name ∧
                 e = KernelError name))) ∧
  closed_wire wire ≠ Raise StopIteration.
Proof.
  destruct (is_wire_closed wire) eqn:Hclosed.
  { rewrite closed_wire_of_closed by done. split; [|done].
    intros e. split; [done|]. by intros (? & _). }
  destruct (TopoDS_Iterator wire) as [|e1 [|e2 it]] eqn:Hit.
  1,2: rewrite closed_wire_of_short by (rewrite Hit; simpl; lia);
       (split; [|done]); intros e; (split; [done|]);
       intros (_ & ? & ? & Hlen & _); simpl in Hlen; lia.
  rewrite (closed_wire_repaired wire e1 e2 it) by done. simpl.
  destruct (IsEqual _ _ _) eqn:Heq.
  { split; [|done]. intros e. split; [done|].
    intros (_ & f & l & _ & Hf & Hl & Hne & _).
    destruct (ends_of_long _ _ _ _ _ Hf Hl) as [-> ->]. congruence. }
  destruct (GC_MakeSegment _ _) as [curve| |name] eqn:Hseg.
  - split; [|done]. intros e. split; [done|].
    intros (_ & f & l & _ & Hf & Hl & _ & Hcases).
    destruct (ends_of_long _ _ _ _ _ Hf Hl) as [-> ->]. simpl in Hcases.
    destruct Hcases as [[? _]|(? & ? & _)]; congruence.
  - split; [|done]. intros e. split.
    + intros [= <-]. split; [done|].
      exists e1, (drain e2 it). split; [simpl; lia|]. split; [done|].
      split; [by rewrite <-drain_is_last|]. simpl. split; [done|].
      left. by rewrite Hseg.
    + intros (_ & f & l & _ & Hf & Hl & _ & Hcases).
      destruct (ends_of_long _ _ _ _ _ Hf Hl) as [-> ->]. simpl in Hcases.
      destruct Hcases as [[_ ->]|(? & ? & _)]; [done|congruence].
  - split; [|done]. intros e. split.
    + intros [= <-]. split; [done|].
      exists e1, (drain e2 it). split; [simpl; lia|]. split; [done|].
      split; [by rewrite <-drain_is_last|]. simpl. split; [done|].
      right. exists name. by rewrite Hseg.
    + intros (_ & f & l & _ & Hf & Hl & _ & Hcases).
      destruct (ends_of_long _ _ _ _ _ Hf Hl) as [-> ->]. simpl in Hcases.
      destruct Hcases as [[? _]|(name' & Hname & ->)]; congruence.
Qed.

(** X7. [closed_wire] returns in three cases only, and this is what it
    returns in each: the argument itself, when [is_wire_closed] takes it
    for closed or it has fewer than two edges; the repair of the
    argument, when the first edge starts where the last edge ends,
    within the tolerance; the repair of the argument followed by one
    more edge, the edge of the segment that the kernel makes from the
    end of the last edge to the start of the first edge, when these two
    points are not equal within the tolerance. *)
Theorem closed_wire_adds_at_most_the_closing_segment
    (wire closed : TopoDS_Wire) :
  closed_wire wire = Ok closed ↔
  ((is_wire_closed wire = true ∨ length (TopoDS_Iterator wire) < 2) ∧
   closed = wire) ∨
  (is_wire_closed wire = false ∧
   ∃ first_edge last_edge,
     2 ≤ length (TopoDS_Iterator wire) ∧
     head (TopoDS_Iterator wire) = Some first_edge ∧
     last (TopoDS_Iterator wire) = Some last_edge ∧
     let start := Value first_edge (FirstParameter first_edge) in
     let end_ := Value last_edge (LastParameter last_edge) in
     (IsEqual start end_ _TOLERANCE = true ∧
      closed = ShapeFix_Wire wire _TOLERANCE) ∨
     (IsEqual start end_ _TOLERANCE = false ∧
      ∃ curve,
        GC_MakeSegment end_ start = Made curve ∧
        closed = ShapeFix_Wire
                   (ShapeExtend_WireData
                      [inl wire; inr (BRepBuilderAPI_MakeEdge curve)])
                   _TOLERANCE)).
Proof.
  destruct (is_wire_closed wire) eqn:Hclosed.
  { rewrite closed_wire_of_closed by done. split.
    - intros [= <-]. left. split; [by left|done].
    - intros [[_ ->]|[? _]]; done. }
  destruct (TopoDS_Iterator wire) as [|e1 [|e2 it]] eqn:Hit.
  1,2: rewrite closed_wire_of_short by (rewrite Hit; simpl; lia); split;
       [intros [= <-]; left; split; [right; simpl; lia|done]
       |intros [[_ ->]|(_ & ? & ? & Hlen & _)]; [done|simpl in Hlen; lia]].
  rewrite (closed_wire_repaired wire e1 e2 it) by done. simpl. split.
  - intros Hrun. right. split; [done|].
    exists e1, (drain e2 it). split; [simpl; lia|]. split; [done|].
    split; [by rewrite <-drain_is_last|]. simpl.
    destruct (IsEqual _ _ _) eqn:Heq.
    + injection Hrun as <-. by left.
    + destruct (GC_MakeSegment _ _) as [curve| |name] eqn:Hseg; [|done..].
      injection Hrun as <-. right. split; [done|]. by exists curve.
  - intros [[[?|Hlen] _]|(_ & f & l & _ & Hf & Hl & Hcases)];
      [done|simpl in Hlen; lia|].
    destruct (ends_of_long _ _ _ _ _ Hf Hl) as [-> ->]. simpl in Hcases.
    destruct Hcases as [[-> ->]|(-> & curve & -> & ->)]; done.
Qed.

(** X8. [wire_from_continuous_edges] without [closed] returns the wire
    that the kernel makes of the edges, as it is made: nothing is
    raised, and neither the repair nor [closed_wire] is run. With
    [closed], it is [closed_wire] on that wire. So, when the kernel
    gives back, as the edges of that wire, the edges it was made of:
    asking for a closed wire changes nothing for fewer than two edges
    (the same wire is returned, closed or not); and for two edges or
    more that make a wire which [is_wire_closed] does not take for
    closed, what is returned is the repair of that wire when the last
    edge given ends where the first edge given starts, within the
    tolerance, and otherwise the repair of that wire followed by the
    segment from that end to that start, or what [segment_curve]
    raises when the kernel makes no such segment. *)
Theorem wire_from_continuous_edges_closing (edges : list TopoDS_Edge) :
  let wire := ShapeExtend_WireData (inr <$> edges) in
  wire_from_continuous_edges edges false = Ok wire ∧
  wire_from_continuous_edges edges true = closed_wire wire ∧
  (TopoDS_Iterator wire = edges →
   (length edges < 2 → wire_from_continuous_edges edges true = Ok wire) ∧
   (is_wire_closed wire = false →
    ∀ first_edge last_edge,
      2 ≤ length edges →
      head edges = Some first_edge →
      last edges = Some last_edge →
      let start := Value first_edge (FirstParameter first_edge) in
      let end_ := Value last_edge (LastParameter last_edge) in
      wire_from_continuous_edges edges true
      = if IsEqual start end_ _TOLERANCE
        then Ok (ShapeFix_Wire wire _TOLERANCE)
        else match GC_MakeSegment end_ start with
             | Made curve =>
                 Ok (ShapeFix_Wire
                       (ShapeExtend_WireData
                          [inl wire; inr (BRepBuilderAPI_MakeEdge curve)])
                       _TOLERANCE)
             | NotDone => Raise (ValueError "could not make segment curve")
             | Failed name => Raise (KernelError name)
             end)).
Proof.
  intros wire. split; [done|]. split; [done|]. intros Hit. split.
  - intros Hlen. unfold wire_from_continuous_edges.
    apply closed_wire_of_short. fold wire. by rewrite Hit.
  - intros Hopen first_edge last_edge Hlen Hf Hl.
    unfold wire_from_continuous_edges. fold wire.
    destruct edges as [|e1 [|e2 it]]; [simpl in Hlen; lia..|].
    destruct (ends_of_long _ _ _ _ _ Hf Hl) as [-> ->].
    by rewrite (closed_wire_repaired wire e1 e2 it).
Qed.

End WireMore.

(** ** Dictionaries, continued *)

Section DictMore.

Lemma setdefault_apply_keys {V : Type} (k : nat) (dflt : V) (f : V → V)
    (d : Py.dict V) :
  (Py.setdefault_apply k dflt f d).*1
  = if decide (k ∈ d.*1) then d.*1 else d.*1 ++ [k].
Proof.
  induction d as [|[k' v] d IH]; [done|].
  cbn [Py.setdefault_apply]. rewrite (fmap_cons fst (k', v)). cbn [fst].
  destruct (decide (k = k')) as [->|Hne].
  - rewrite fmap_cons. cbn [fst]. rewrite decide_True; [done|left].
  - rewrite fmap_cons, IH. cbn [fst].
    destruct (decide (k ∈ d.*1)) as [Hin|Hout].
    + rewrite decide_True; [done|by right].
    + rewrite decide_False; [done|].
      intros [?|?]%elem_of_cons; done.
Qed.

Lemma setdefault_apply_fresh {V : Type} (k : nat) (dflt : V) (f : V → V)
    (d : Py.dict V) :
  k ∉ d.*1 → Py.setdefault_apply k dflt f d = d ++ [(k, f dflt)].
Proof.
  induction d as [|[k' v] d IH]; simpl; [done|].
  intros Hk. rewrite decide_False by (intros ->; apply Hk; left).
  rewrite IH; [done|]. intros ?. apply Hk. by right.
Qed.

Lemma setdefault_apply_NoDup {V : Type} (k : nat) (dflt : V) (f : V → V)
    (d : Py.dict V) :
  NoDup d.*1 → NoDup (Py.setdefault_apply k dflt f d).*1.
Proof.
  intros Hd. rewrite setdefault_apply_keys. case_decide; [done|].
  apply NoDup_app. split; [done|]. split.
  - intros x Hx ->%list_elem_of_singleton. done.
  - apply NoDup_singleton.
Qed.

Lemma dict_get_elem_of {V : Type} (k : nat) (v : V) (d : Py.dict V) :
  NoDup d.*1 → (k, v) ∈ d → Py.dict_get k d = Some v.
Proof.
  induction d as [|[k' v'] d IH]; simpl.
  { by intros _ ?%elem_of_nil. }
  intros [Hk' Hd]%NoDup_cons [[= -> ->]|Hin]%elem_of_cons.
  - by rewrite decide_True.
  - rewrite decide_False; [by apply IH|].
    intros ->. apply Hk'. apply list_elem_of_fmap. by exists (k', v).
Qed.

Lemma dict_values_elem_of {V : Type} (v : V) (d : Py.dict V) :
  NoDup d.*1 → v ∈ Py.dict_values d → ∃ k, Py.dict_get k d = Some v.
Proof.
  unfold Py.dict_values.
  intros Hd ([k v'] & -> & Hin)%list_elem_of_fmap.
  exists k. by apply dict_get_elem_of.
Qed.

End DictMore.

(** ** Faces from a soup of wires, continued *)

Section SoupMore.
Import Coerce Shapes Soup.
Context {K : Kernel} {SO : Py.SetOrder}.

#[local] Abbreviation Face := (TopoDS_Face TopoDS_Wire).

Implicit Types (faces : list Face) (included_in : gmap nat (gset nat)).

Lemma snd_enumerate {A : Type} (l : list A) : (Py.enumerate l).*2 = l.
Proof.
  unfold Py.enumerate. rewrite fmap_imap.
  rewrite (imap_ext _ (λ _ a, a)) by done.
  induction l as [|a l IH]; [done|]. rewrite imap_cons. simpl. f_equal.
  by rewrite (imap_ext _ (λ _ a, a)) by done.
Qed.

Lemma fst_enumerate {A : Type} (l : list A) :
  (Py.enumerate l).*1 = seq 0 (length l).
Proof.
  unfold Py.enumerate. rewrite fmap_imap.
  rewrite (imap_ext _ (λ i _, 0 + i)) by done. generalize 0.
  induction l as [|a l IH]; intros n; [done|].
  rewrite imap_cons. simpl. rewrite Nat.add_0_r. f_equal.
  rewrite <-IH. apply imap_ext. intros i x _. simpl. lia.
Qed.

Lemma outer_wire_candidates (fixed : list TopoDS_Wire) :
  (λ e : nat * Face, face_outer_wire e.2)
    <$> Py.enumerate (BRepBuilderAPI_MakeFace <$> fixed) = fixed.
Proof.
  trans (face_outer_wire
           <$> (Py.enumerate (BRepBuilderAPI_MakeFace <$> fixed)).*2).
  { by rewrite <-list_fmap_compose. }
  rewrite snd_enumerate, <-list_fmap_compose. apply list_fmap_id.
Qed.

Lemma group_wires_setdefault_apply (k : nat) (w : TopoDS_Wire)
    (f : WireListPair → WireListPair) (d : Py.dict WireListPair) :
  (∀ g, (f g).1 ++ (f g).2 ≡ₚ w :: g.1 ++ g.2) →
  group_wires (Py.setdefault_apply k ([], []) f d) ≡ₚ w :: group_wires d.
Proof.
  intros Hf. unfold group_wires, Py.dict_values.
  induction d as [|[k' g] d IH].
  - simpl. by rewrite app_nil_r, Hf.
  - cbn [Py.setdefault_apply]. destruct (decide (k = k')) as [->|Hne].
    + rewrite !fmap_cons, !bind_cons. cbn [snd]. by rewrite Hf.
    + rewrite !fmap_cons, !bind_cons. cbn [snd].
      rewrite IH. by rewrite <-Permutation_middle.
Qed.

Section Recorded.

Variable included_in : gmap nat (gset nat).
Variable parent : nat → nat.

#[local] Abbreviation record := (record_wire included_in parent).

Lemma record_NoDup (es : list (nat * Face)) (d : Py.dict WireListPair) :
  NoDup d.*1 → NoDup (foldl record d es).*1.
Proof.
  revert d. induction es as [|e es IH]; intros d Hd; simpl; [done|].
  apply IH. by apply setdefault_apply_NoDup.
Qed.

Lemma record_keys (es : list (nat * Face)) (d : Py.dict WireListPair) (k : nat) :
  k ∈ (foldl record d es).*1 →
  k ∈ d.*1 ∨ ∃ e, e ∈ es ∧ k = group_of included_in parent e.1.
Proof.
  revert d. induction es as [|e es IH]; intros d; simpl; [by left|].
  intros [Hk|(e' & He' & ->)]%IH.
  - unfold record_wire in Hk. rewrite setdefault_apply_keys in Hk.
    case_decide; [by left|].
    apply elem_of_app in Hk as [?| ->%list_elem_of_singleton]; [by left|].
    right. exists e. split; [left|done].
  - right. exists e'. split; [by right|done].
Qed.

(** Recording a face adds its outer wire to the wires of the groups,
    and nothing else. *)
Lemma group_wires_record (es : list (nat * Face)) (d : Py.dict WireListPair) :
  group_wires (foldl record d es)
  ≡ₚ group_wires d ++ ((λ e, face_outer_wire e.2) <$> es).
Proof.
  revert d. induction es as [|e es IH]; intros d.
  { simpl. by rewrite app_nil_r. }
  cbn [foldl]. rewrite IH, fmap_cons. clear IH.
  assert (group_wires (record d e) ≡ₚ face_outer_wire e.2 :: group_wires d)
    as ->; [|by rewrite <-Permutation_middle].
  unfold record_wire. apply group_wires_setdefault_apply.
  intros [o i]. destruct (is_inner included_in e.1); simpl.
  - by rewrite app_assoc, <-Permutation_cons_append.
  - rewrite <-app_assoc. simpl. by rewrite <-Permutation_middle.
Qed.

End Recorded.

Lemma face_wires_simple (ws : list TopoDS_Wire) :
  ((λ path, MkFace path []) <$> ws) ≫= face_wires = ws.
Proof.
  induction ws as [|w ws IH]; [done|].
  rewrite fmap_cons, bind_cons, IH. done.
Qed.

Lemma face_wires_emit (group : WireListPair) :
  (emit group).1 ≫= face_wires = group.1 ++ group.2.
Proof.
  destruct group as [outers inners].
  destruct (decide (length outers = 1)) as [Hone|Hother].
  - destruct outers as [|o [|o' outers]]; try done.
    rewrite emit_single. simpl. by rewrite app_nil_r.
  - rewrite emit_fallback by done. apply face_wires_simple.
Qed.

Lemma face_wires_emit_all (groups : list WireListPair) :
  (emit_all groups).1 ≫= face_wires = groups ≫= λ g, g.1 ++ g.2.
Proof.
  rewrite emit_all_eq. cbn [fst].
  induction groups as [|g groups IH]; [done|].
  by rewrite !bind_cons, bind_app, IH, face_wires_emit.
Qed.

(** What [faces_from_wire_soup] returns when it returns. *)
Lemma faces_from_wire_soup_Ok (wires : list TopoDS_Wire)
    (out : list Face) (log : list LogRecord) :
  faces_from_wire_soup wires = Ok (out, log) →
  ∃ fixed,
    are_wires_coplanar wires = true ∧
    mapM closed_wire wires = Ok fixed ∧
    ((length fixed < 2 ∧ out = BRepBuilderAPI_MakeFace <$> fixed ∧ log = []) ∨
     (2 ≤ length fixed ∧
      let faces := BRepBuilderAPI_MakeFace <$> fixed in
      let included_in := build_included_in faces in
      (out, log)
      = emit_all (Py.dict_values
          (foldl (record_wire included_in (nearest included_in)) []
             (Py.enumerate faces))))).
Proof.
  intros Hrun.
  destruct (are_wires_coplanar wires) eqn:Hplane;
    [|by rewrite faces_from_wire_soup_not_coplanar in Hrun].
  destruct (mapM closed_wire wires) as [fixed|e] eqn:Hfixed; last first.
  { unfold faces_from_wire_soup in Hrun. by rewrite Hplane, Hfixed in Hrun. }
  exists fixed. split; [done|]. split; [done|].
  destruct (decide (length fixed < 2)) as [Hfew|Hmany].
  - rewrite (faces_from_wire_soup_few wires fixed) in Hrun by done.
    injection Hrun as <- <-. by left.
  - destruct (faces_from_wire_soup_groups wires fixed) as [_ Hgroups];
      [done|done|lia|].
    rewrite Hgroups in Hrun. injection Hrun as Hrun. right.
    split; [lia|done].
Qed.

(** X9. Nothing is lost and nothing is repeated: when
    [faces_from_wire_soup] returns, the wires of the faces it yields
    (the outer wire and the holes of each) are, up to their order, the
    wires that [closed_wire] made of the wires given, one for each. This
    holds whatever the kernel finds inside what. *)
Theorem faces_from_wire_soup_uses_each_wire_once (wires : list TopoDS_Wire)
    (out : list Face) (log : list LogRecord) :
  faces_from_wire_soup wires = Ok (out, log) →
  ∃ fixed,
    mapM closed_wire wires = Ok fixed ∧
    length fixed = length wires ∧
    out ≫= face_wires ≡ₚ fixed.
Proof.
  intros (fixed & _ & Hfixed & Hcases)%faces_from_wire_soup_Ok.
  exists fixed. split; [done|].
  split; [by apply mapM_Ok_inv in Hfixed as [? _]|].
  destruct Hcases as [(_ & -> & _)|[_ Hout]].
  - clear Hfixed. by rewrite face_wires_simple.
  - simpl in Hout. apply (f_equal fst) in Hout. simpl in Hout. subst out.
    rewrite face_wires_emit_all. fold (@group_wires TopoDS_Wire).
    change (Py.dict_values ?d ≫= _) with (group_wires d).
    rewrite group_wires_record. simpl. by rewrite outer_wire_candidates.
Qed.

(** The groups of the dictionary that the loop of lines 197-205 leaves:
    a group has the outer wire of the face that gives it its key, when
    that face is not an inner ring, and no other outer wire. *)
Lemma groups_outers (faces : list Face) (included_in : gmap nat (gset nat))
    (parent : nat → nat) (outers inners : list TopoDS_Wire) :
  (outers, inners)
    ∈ Py.dict_values
        (foldl (record_wire included_in parent) [] (Py.enumerate faces)) →
  ∃ k, Py.dict_get k
         (foldl (record_wire included_in parent) [] (Py.enumerate faces))
       = Some (outers, inners) ∧
       outers = if is_inner included_in k then []
                else match faces !! k with
                     | Some face => [face_outer_wire face]
                     | None => []
                     end.
Proof.
  intros [k Hget]%dict_values_elem_of.
  - exists k. split; [done|]. by eapply group_outers.
  - apply record_NoDup. constructor.
Qed.

(** X10. A group never has two outer wires: in the dictionary that the
    loop of lines 197-205 leaves, the list of outer wires of a group has
    one wire at most. So the fallback of lines 210-215 is reached with no
    outer wire only, and every record that [faces_from_wire_soup] logs is
    the warning with the number 0. *)
Theorem faces_from_wire_soup_group_has_at_most_one_outer
    (wires : list TopoDS_Wire) :
  (∀ (faces : list Face) (included_in : gmap nat (gset nat))
     (groups : Py.dict WireListPair) (outers inners : list TopoDS_Wire),
     assign faces included_in = Ok groups →
     (outers, inners) ∈ Py.dict_values groups →
     length outers ≤ 1) ∧
  (∀ out log,
     faces_from_wire_soup wires = Ok (out, log) →
     ∀ r, r ∈ log → r = Warning "invalid nesting (found %d outer wires)" 0).
Proof.
  split.
  - intros faces included_in groups outers inners Hassign Hin.
    rewrite assign_nearest in Hassign. injection Hassign as <-.
    destruct (groups_outers _ _ _ _ _ Hin) as (k & _ & ->).
    destruct (is_inner included_in k); [simpl; lia|].
    destruct (faces !! k); simpl; lia.
  - intros out log (fixed & _ & _ & Hcases)%faces_from_wire_soup_Ok r Hr.
    destruct Hcases as [(_ & _ & ->)|[_ Hout]]; [by apply elem_of_nil in Hr|].
    simpl in Hout. apply (f_equal snd) in Hout. simpl in Hout. subst log.
    rewrite emit_all_eq in Hr. simpl in Hr.
    apply list_elem_of_bind in Hr as ([outers inners] & Hr & Hin).
    destruct (groups_outers _ _ _ _ _ Hin) as (k & _ & Houters).
    destruct (decide (length outers = 1)) as [Hone|Hother].
    + destruct outers as [|o [|o' outers]]; try done.
      rewrite emit_single in Hr. by apply elem_of_nil in Hr.
    + rewrite emit_fallback in Hr by done. simpl in Hr.
      apply list_elem_of_singleton in Hr as ->. f_equal.
      rewrite Houters in *. destruct (is_inner _ k); [done|].
      by destruct (_ !! k).
Qed.

Lemma ancestors_empty (faces : list Face) (i : nat) :
  (∀ j, ¬ contained faces i j) →
  get_ancestors (build_included_in faces) i = ∅.
Proof.
  intros Hnone. apply set_eq. intros j. rewrite elem_of_ancestors.
  split; [by intros ?%Hnone|by intros ?%elem_of_empty].
Qed.

Lemma is_inner_empty (included_in : gmap nat (gset nat)) (i : nat) :
  get_ancestors included_in i = ∅ → is_inner included_in i = false.
Proof.
  intros Hempty. unfold is_inner. rewrite Hempty, size_empty.
  apply bool_decide_eq_false. intros Hodd. by apply Hodd.
Qed.

(** Faces of which none is an inner ring get a group each, in order. *)
Lemma record_all_outer (included_in : gmap nat (gset nat)) (parent : nat → nat)
    (es : list (nat * Face)) (d : Py.dict WireListPair) :
  (∀ e, e ∈ es → is_inner included_in e.1 = false) →
  NoDup (d.*1 ++ es.*1) →
  foldl (record_wire included_in parent) d es
  = d ++ ((λ e, (e.1, ([face_outer_wire e.2], []))) <$> es).
Proof.
  revert d. induction es as [|e es IH]; intros d Houter Hdup.
  { simpl. by rewrite app_nil_r. }
  cbn [foldl]. unfold record_wire at 2, group_of.
  rewrite (Houter e) by left.
  rewrite setdefault_apply_fresh; last first.
  { apply NoDup_app in Hdup as (_ & Hdisj & _). intros Hin.
    apply (Hdisj _ Hin). rewrite fmap_cons. left. }
  rewrite IH.
  - rewrite fmap_cons, <-app_assoc. done.
  - intros e' He'. apply Houter. by right.
  - rewrite fmap_app, fmap_cons in *. simpl in *.
    by rewrite <-app_assoc.
Qed.

(** X11. When no candidate face is found inside another, each wire makes
    a face of its own: for coplanar wires that [closed_wire] could close,
    [faces_from_wire_soup] yields one face without holes for each wire,
    in the order of the wires, and logs nothing. *)
Theorem faces_from_wire_soup_disjoint (wires fixed : list TopoDS_Wire) :
  are_wires_coplanar wires = true →
  mapM closed_wire wires = Ok fixed →
  (∀ i j, ¬ contained (BRepBuilderAPI_MakeFace <$> fixed) i j) →
  faces_from_wire_soup wires
  = Ok ((λ w, MkFace w []) <$> fixed, []).
Proof.
  intros Hplane Hfixed Hnone.
  destruct (decide (length fixed < 2)) as [Hfew|Hmany].
  { by rewrite (faces_from_wire_soup_few wires fixed). }
  destruct (faces_from_wire_soup_groups wires fixed) as [_ ->];
    [done|done|lia|].
  rewrite record_all_outer.
  - rewrite app_nil_l, emit_all_eq. unfold Py.dict_values.
    rewrite <-list_fmap_compose. f_equal.
    set (faces := BRepBuilderAPI_MakeFace <$> fixed).
    assert (∀ es : list (nat * Face),
      ((snd ∘ λ e, (e.1, ([face_outer_wire e.2], @nil TopoDS_Wire))) <$> es)
        ≫= (λ g, (emit g).1) = (λ e, MkFace (face_outer_wire e.2) []) <$> es
      ∧ ((snd ∘ λ e, (e.1, ([face_outer_wire e.2], @nil TopoDS_Wire))) <$> es)
        ≫= (λ g, (emit g).2) = []) as Hemit.
    { induction es as [|e es [IH1 IH2]]; [done|].
      rewrite !fmap_cons, !bind_cons, IH1, IH2. simpl.
      by rewrite face_from_wires_eq. }
    destruct (Hemit (Py.enumerate faces)) as [Hfaces Hlog].
    f_equal; [etrans; [exact Hfaces|]|exact Hlog].
    trans ((λ face : Face, MkFace (face_outer_wire face) [])
             <$> (Py.enumerate faces).*2).
    { by rewrite <-list_fmap_compose. }
    rewrite snd_enumerate. unfold faces. by rewrite <-list_fmap_compose.
  - intros [i face] _. apply is_inner_empty, ancestors_empty. apply Hnone.
  - rewrite fst_enumerate. simpl. apply NoDup_seq.
Qed.

Lemma dict_get_Some_key {V : Type} (k : nat) (v : V) (d : Py.dict V) :
  Py.dict_get k d = Some v → k ∈ d.*1.
Proof.
  induction d as [|[k' v'] d IH]; simpl; [done|].
  case_decide; [subst; intros _; left|intros ?; right; by apply IH].
Qed.

Lemma emit_all_single (groups : list WireListPair) :
  (∀ g, g ∈ groups → ∃ outer, g.1 = [outer]) →
  (emit_all groups).2 = [] ∧ length (emit_all groups).1 = length groups.
Proof.
  rewrite emit_all_eq. cbn [fst snd].
  induction groups as [|[outers inners] groups IH]; intros Hall; [done|].
  destruct (Hall (outers, inners)) as [outer Houter]; [left|].
  simpl in Houter. subst outers.
  destruct IH as [IH1 IH2]; [intros g Hg; apply Hall; by right|].
  rewrite !bind_cons, emit_single, IH1. cbn [fst snd].
  split; [done|]. rewrite length_app, IH2. done.
Qed.

Lemma is_inner_false_mod (included_in : gmap nat (gset nat)) (i : nat) :
  is_inner included_in i = false ↔
  size (get_ancestors included_in i) `mod` 2 = 0.
Proof.
  unfold is_inner. rewrite bool_decide_eq_false. split.
  - intros Hnot. by destruct (decide (size (get_ancestors included_in i)
                                       `mod` 2 = 0)).
  - intros -> Hne. by apply Hne.
Qed.

(** X12. Nested boundaries never reach the fallback: for coplanar,
    closed wires whose candidate faces are nested, [faces_from_wire_soup]
    logs no warning, and yields as many faces as there are wires with an
    even number of ancestors. *)
Theorem faces_from_wire_soup_nested_no_warning (wires : list TopoDS_Wire) :
  are_wires_coplanar wires = true →
  (∀ w, w ∈ wires → is_wire_closed w = true) →
  let faces := BRepBuilderAPI_MakeFace <$> wires in
  nested faces →
  ∃ out,
    faces_from_wire_soup wires = Ok (out, []) ∧
    length out
    = length (filter (λ i, ancestor_count faces i `mod` 2 = 0)
                     (seq 0 (length wires))).
Proof.
  intros Hplane Hclosed faces Hnested.
  pose proof (mapM_closed_wire_closed wires Hclosed) as Hfixed.
  destruct (decide (length wires < 2)) as [Hfew|Hmany].
  { rewrite (faces_from_wire_soup_few wires wires) by done.
    eexists. split; [done|]. rewrite length_fmap.
    destruct wires as [|w [|w' wires]]; [done| |simpl in Hfew; lia].
    simpl. rewrite filter_cons, decide_True; [done|].
    unfold ancestor_count. rewrite ancestors_empty; [done|].
    intros j (_ & fj & _ & Hj & Hne & _). destruct j; [done|].
    by apply lookup_lt_Some in Hj; simpl in Hj; lia. }
  destruct (faces_from_wire_soup_groups wires wires) as [_ Hrun];
    [done|done|lia|].
  fold faces in Hrun.
  set (included_in := build_included_in faces) in *.
  set (groups := foldl _ _ _) in *.
  assert (NoDup groups.*1) as Hdup by (apply record_NoDup; constructor).
  assert (∀ k, k ∈ groups.*1 ↔
               k ∈ filter (λ i, ancestor_count faces i `mod` 2 = 0)
                     (seq 0 (length wires))) as Hkeys.
  { intros k. rewrite list_elem_of_filter, elem_of_seq.
    unfold ancestor_count. fold included_in.
    rewrite <-is_inner_false_mod. split.
    - intros [?|([i face] & He & ->)]%record_keys; [by apply elem_of_nil in H|].
      apply elem_of_enumerate in He. unfold group_of. simpl.
      destruct (is_inner included_in i) eqn:Hinner.
      + split; [by apply nearest_is_outer|].
        destruct (nearest_spec included_in i Hinner) as [Hp _].
        apply elem_of_ancestors, ancestors_lt in Hp as [_ Hp].
        unfold faces in Hp. rewrite length_fmap in Hp. lia.
      + split; [done|]. apply lookup_lt_Some in He.
        unfold faces in He. rewrite length_fmap in He. lia.
    - intros [Houter [_ Hk]]. simpl in Hk.
      destruct (lookup_lt_is_Some_2 wires k Hk) as [w Hw].
      destruct (record_outer included_in (nearest included_in)
                  (Py.enumerate faces) [] k (MkFace w []))
        as (o & inn & Hget & _); [by apply lookup_candidate|done|].
      by eapply dict_get_Some_key. }
  assert (∀ g, g ∈ Py.dict_values groups → ∃ outer, g.1 = [outer]) as Hone.
  { intros [outers inners] Hg.
    destruct (groups_outers _ _ _ _ _ Hg) as (k & Hget & ->).
    apply dict_get_Some_key, Hkeys in Hget.
    apply list_elem_of_filter in Hget as [Houter Hk].
    unfold ancestor_count in Houter. fold included_in in Houter.
    apply is_inner_false_mod in Houter. rewrite Houter.
    apply elem_of_seq in Hk as [_ Hk]. simpl in Hk.
    destruct (lookup_lt_is_Some_2 faces k) as [face ->];
      [unfold faces; by rewrite length_fmap|].
    by eexists. }
  destruct (emit_all_single _ Hone) as [Hlog Hlen].
  exists (emit_all (Py.dict_values groups)).1. split.
  - rewrite Hrun, <-Hlog. f_equal. apply surjective_pairing.
  - rewrite Hlen. unfold Py.dict_values. rewrite length_fmap.
    rewrite <-(length_fmap fst). apply Permutation_length.
    apply NoDup_Permutation; [done| |done].
    apply NoDup_filter, NoDup_seq.
Qed.

End SoupMore.

(** ** Runs on the concrete kernels *)

Section CurveWitnesses.
Import Coerce Curves.

Lemma bezier_curve_builds_or_refuses_witness :
  bezier_curve (K := PiecewiseKernel.kernel) [of_tuple [1%float]]
  = Raise (ValueError
             "bezier curve must have between 2 and MaxDegree control points") ∧
  bezier_curve (K := PiecewiseKernel.kernel)
    [of_tuple [0%float; 0%float]; of_tuple [1%float]]
  = Raise (ValueError "cannot make point") ∧
  (let b := MkBezier [Pnt 0 0 0; Pnt 1 2 0] None in
   2 ≤ 2 ≤ BEZIER_MAX_DEGREE (K := PiecewiseKernel.kernel) ∧
   Bezier_IsRational b = false ∧
   Bezier_Degree b = (Z.of_nat 2 - 1)%Z ∧
   (Bezier_Degree b
    < Z.of_nat (BEZIER_MAX_DEGREE (K := PiecewiseKernel.kernel)))%Z ∧
   length (Poles b) = 2 ∧
   ∀ i c, [of_tuple [0%float; 0%float]; of_Pnt (Pnt 1 2 0)] !! i = Some c →
          ∃ p, as_Pnt c = Ok p ∧ Poles b !! i = Some p).
Proof.
  split; [|split].
  - apply (proj1 (bezier_curve_builds_or_refuses (K := PiecewiseKernel.kernel)
                    [of_tuple [1%float]])).
    simpl. lia.
  - apply (proj1 (proj2 (bezier_curve_builds_or_refuses
                           (K := PiecewiseKernel.kernel)
                           [of_tuple [0%float; 0%float]; of_tuple [1%float]]))).
    + simpl. lia.
    + exists (of_tuple [1%float]). split; [right; left|apply raises_Raise].
  - intros b.
    apply (proj1 (proj2 (proj2 (bezier_curve_builds_or_refuses
                                  (K := PiecewiseKernel.kernel)
                                  [of_tuple [0%float; 0%float];
                                   of_Pnt (Pnt 1 2 0)]))) b).
    reflexivity.
Defined.

Lemma beziers_within_max_degree_from_cubic_witness :
  let chord := SingleSpanKernel.chord SingleSpanKernel.quarter_circle in
  curve_to_beziers (K := SingleSpanKernel.kernel)
    (an_Adaptor (K := SingleSpanKernel.kernel) SingleSpanKernel.quarter_circle) 0.5 3 100 = Ok [chord] ∧
  (Bezier_Degree chord ≤ 3)%Z ∧ Bezier_IsRational chord = false.
Proof.
  intros chord.
  assert (curve_to_beziers (K := SingleSpanKernel.kernel)
            (an_Adaptor (K := SingleSpanKernel.kernel) SingleSpanKernel.quarter_circle) 0.5 3 100
          = Ok [chord]) as Hrun by (vm_compute; reflexivity).
  split; [exact Hrun|].
  apply (proj1 (beziers_within_max_degree_from_cubic
                  (K := SingleSpanKernel.kernel) 3
                  ltac:(lia)
                  ltac:(intros s i _; split; reflexivity)
                  ltac:(intros s tolerance max_segments approx _;
                        unfold approx; simpl; unfold SingleSpanKernel.chord;
                        destruct (Poles s); split; (reflexivity || done))
                  (an_Adaptor (K := SingleSpanKernel.kernel) SingleSpanKernel.quarter_circle)
                  SingleSpanKernel.quarter_circle 0.5 100)
           [chord] chord Hrun).
  apply list_elem_of_singleton. reflexivity.
Defined.

Lemma curve_to_beziers_raises_only_on_failed_approximation_witness :
  let K := ToleranceKernel.kernel in
  let adaptor : Adaptor := SingleSpanKernel.quarter_circle in
  curve_to_beziers (an_Adaptor adaptor) 0x1p-40 3 1
  = Raise (ValueError "could not approximate b-spline") ∧
  curve_to_beziers (an_Adaptor adaptor) 2 3 1
  = Ok [SingleSpanKernel.chord SingleSpanKernel.quarter_circle] ∧
  GetType adaptor ≠ GeomAbs_Line ∧
  (GetType adaptor = GeomAbs_BezierCurve →
   (3 < Bezier_Degree (Bezier adaptor))%Z ∨
   Bezier_IsRational (Bezier adaptor) = true) ∧
  ∃ bspline,
    bspline_to_beziers bspline 0x1p-40 3 1
    = Raise (ValueError "could not approximate b-spline") ∧
    ((3 < BSpline_Degree bspline)%Z ∨ BSpline_IsRational bspline = true) ∧
    (let approx := GeomConvert_ApproxCurve bspline 0x1p-40 1 3 in
     IsDone approx && HasResult approx = false).
Proof.
  intros K adaptor.
  assert (curve_to_beziers (an_Adaptor adaptor) 0x1p-40 3 1
          = Raise (ValueError "could not approximate b-spline")) as Hrun
    by (vm_compute; reflexivity).
  split; [exact Hrun|]. split; [vm_compute; reflexivity|].
  apply (proj2 (curve_to_beziers_raises_only_on_failed_approximation
                  (K := ToleranceKernel.kernel)
                  (an_Adaptor adaptor) 0x1p-40 3 1
                  "could not approximate b-spline"
                  ltac:(simpl; lia) Hrun)).
Defined.

End CurveWitnesses.

Section ShapeWitnesses.
Import Coerce Shapes Soup.

Lemma closed_wire_raises_only_on_failed_segment_witness :
  closed_wire (K := OpenKernel.kernel) SegmentKernel.two_sides
  = Raise (ValueError "could not make segment curve") ∧
  closed_wire (K := BoundedKernel.kernel) BoundedKernel.wide_sides
  = Raise (KernelError "Standard_ConstructionError") ∧
  closed_wire (K := OpenKernel.kernel) SegmentKernel.two_sides
  ≠ Raise StopIteration.
Proof.
  split; [|split].
  - apply (proj1 (closed_wire_raises_only_on_failed_segment
                    (K := OpenKernel.kernel) SegmentKernel.two_sides)).
    split; [reflexivity|].
    exists (Pnt 0 0 0, Pnt 4 0 0), (Pnt 4 0 0, Pnt 4 3 0).
    split; [simpl; lia|]. split; [reflexivity|]. split; [reflexivity|].
    split; [vm_compute; reflexivity|]. left. split; reflexivity.
  - apply (proj1 (closed_wire_raises_only_on_failed_segment
                    (K := BoundedKernel.kernel) BoundedKernel.wide_sides)).
    split; [vm_compute; reflexivity|].
    eexists _, _.
    split; [simpl; lia|]. split; [reflexivity|]. split; [reflexivity|].
    split; [vm_compute; reflexivity|]. right.
    exists "Standard_ConstructionError". split; vm_compute; reflexivity.
  - apply (proj2 (closed_wire_raises_only_on_failed_segment
                    (K := OpenKernel.kernel) SegmentKernel.two_sides)).
Defined.

Lemma closed_wire_adds_at_most_the_closing_segment_witness :
  closed_wire (K := SewnKernel.kernel) SewnKernel.loose_sides
  = Ok SewnKernel.sewn_triangle ∧
  closed_wire (K := SewnKernel.kernel) SewnKernel.loose_triangle
  = Ok SewnKernel.sewn_triangle ∧
  closed_wire (K := SewnKernel.kernel) SewnKernel.one_side
  = Ok SewnKernel.one_side.
Proof.
  split; [|split].
  - apply (proj2 (closed_wire_adds_at_most_the_closing_segment
                    (K := SewnKernel.kernel)
                    SewnKernel.loose_sides SewnKernel.sewn_triangle)).
    right. split; [reflexivity|].
    exists (Pnt 0 0 0, Pnt 4 0 0), (Pnt 4 0 0, Pnt 4 3 0).
    split; [simpl; lia|]. split; [reflexivity|]. split; [reflexivity|].
    right. split; [vm_compute; reflexivity|].
    exists (Pnt 4 3 0, Pnt 0 0 0). split; vm_compute; reflexivity.
  - apply (proj2 (closed_wire_adds_at_most_the_closing_segment
                    (K := SewnKernel.kernel)
                    SewnKernel.loose_triangle SewnKernel.sewn_triangle)).
    right. split; [reflexivity|].
    exists (Pnt 0 0 0, Pnt 4 0 0), (Pnt 4 3 0, Pnt 0 0 0).
    split; [simpl; lia|]. split; [reflexivity|]. split; [reflexivity|].
    left. split; vm_compute; reflexivity.
  - apply (proj2 (closed_wire_adds_at_most_the_closing_segment
                    (K := SewnKernel.kernel)
                    SewnKernel.one_side SewnKernel.one_side)).
    left. split; [right; simpl; lia|reflexivity].
Defined.

Lemma wire_from_continuous_edges_closing_witness :
  wire_from_continuous_edges (K := SewnKernel.kernel)
    SegmentKernel.two_sides false
  = Ok SewnKernel.loose_sides ∧
  wire_from_continuous_edges (K := SewnKernel.kernel)
    SegmentKernel.two_sides true
  = Ok SewnKernel.sewn_triangle ∧
  wire_from_continuous_edges (K := SewnKernel.kernel)
    [(Pnt 0 0 0, Pnt 4 0 0)] true
  = Ok SewnKernel.one_side.
Proof.
  split; [|split].
  - apply (proj1 (wire_from_continuous_edges_closing
                    (K := SewnKernel.kernel) SegmentKernel.two_sides)).
  - rewrite (proj2 (proj2 (proj2 (wire_from_continuous_edges_closing
                                    (K := SewnKernel.kernel)
                                    SegmentKernel.two_sides)) eq_refl)
               eq_refl (Pnt 0 0 0, Pnt 4 0 0) (Pnt 4 0 0, Pnt 4 3 0)
               ltac:(simpl; lia) eq_refl eq_refl).
    vm_compute. reflexivity.
  - apply (proj1 (proj2 (proj2 (wire_from_continuous_edges_closing
                                  (K := SewnKernel.kernel)
                                  [(Pnt 0 0 0, Pnt 4 0 0)])) eq_refl)).
    simpl. lia.
Defined.

Lemma faces_from_wire_soup_uses_each_wire_once_witness :
  ∃ fixed,
    mapM (closed_wire (K := LabelKernel.circles)) LabelKernel.three_circles
    = Ok fixed ∧
    length fixed = length LabelKernel.three_circles ∧
    [MkFace 10%float [7%float]; MkFace 3%float []] ≫= face_wires ≡ₚ fixed.
Proof.
  apply (faces_from_wire_soup_uses_each_wire_once
           (K := LabelKernel.circles) (SO := elements_order)
           LabelKernel.three_circles _ []).
  apply three_circles_faces.
Defined.

Lemma faces_from_wire_soup_group_has_at_most_one_outer_witness :
  Warning "invalid nesting (found %d outer wires)" 0
  = Warning "invalid nesting (found %d outer wires)" 0.
Proof.
  apply (proj2 (faces_from_wire_soup_group_has_at_most_one_outer
                  (K := LabelKernel.broken) (SO := elements_order) [0; 1; 2])
           [MkFace 0 [1]; MkFace 2 []]
           [Warning "invalid nesting (found %d outer wires)" 0]).
  - vm_compute. reflexivity.
  - left.
Defined.

Lemma faces_from_wire_soup_disjoint_witness :
  faces_from_wire_soup (K := SegmentKernel.kernel)
    [SegmentKernel.triangle; SegmentSamples.far_triangle]
  = Ok ([MkFace SegmentKernel.triangle [];
         MkFace SegmentSamples.far_triangle []], []).
Proof.
  apply (faces_from_wire_soup_disjoint (K := SegmentKernel.kernel)
           (SO := elements_order)
           [SegmentKernel.triangle; SegmentSamples.far_triangle]
           [SegmentKernel.triangle; SegmentSamples.far_triangle]).
  - vm_compute. reflexivity.
  - vm_compute. reflexivity.
  - intros i j Hij%contained_b_spec.
    destruct i as [|[|i]]; destruct j as [|[|j]]; vm_compute in Hij;
      discriminate.
Defined.

Lemma faces_from_wire_soup_nested_no_warning_witness :
  ∃ out,
    faces_from_wire_soup (K := LabelKernel.circles) LabelKernel.three_circles
    = Ok (out, []) ∧
    length out
    = length (filter
                (λ i, ancestor_count (K := LabelKernel.circles)
                        (BRepBuilderAPI_MakeFace (K := LabelKernel.circles)
                           <$> LabelKernel.three_circles) i `mod` 2 = 0)
                (seq 0 (length LabelKernel.three_circles))).
Proof.
  apply (faces_from_wire_soup_nested_no_warning (K := LabelKernel.circles)
           (SO := elements_order) LabelKernel.three_circles).
  - reflexivity.
  - intros w _. reflexivity.
  - exact three_circles_nested.
Defined.

End ShapeWitnesses.

Section ConicFacts.
Import Coerce Conics.

(** The order of binary64 numbers is asymmetric: of [x < y] and
    [y < x] at most one holds (none when one of them is not a number). *)
Lemma SFltb_asym (x y : SpecFloat.spec_float) :
  SpecFloat.SFltb x y = true → SpecFloat.SFltb y x = false.
Proof.
  unfold SpecFloat.SFltb.
  destruct x as [[]|[]| |[] mx ex], y as [[]|[]| |[] my ey];
    cbn; try done.
  - rewrite (Z.compare_antisym ex ey).
    destruct (ex ?= ey)%Z; cbn; try done.
    change (PosDef.Pos.compare_cont Eq my mx) with (my ?= mx)%positive.
    change (PosDef.Pos.compare_cont Eq mx my) with (mx ?= my)%positive.
    rewrite (Pos.compare_antisym mx my).
    by destruct (mx ?= my)%positive.
  - rewrite (Z.compare_antisym ex ey).
    destruct (ex ?= ey)%Z; cbn; try done.
    change (PosDef.Pos.compare_cont Eq my mx) with (my ?= mx)%positive.
    change (PosDef.Pos.compare_cont Eq mx my) with (mx ?= my)%positive.
    rewrite (Pos.compare_antisym mx my).
    by destruct (mx ?= my)%positive.
Qed.

Lemma ltb_asym (x y : float) :
  PrimFloat.ltb x y = true → PrimFloat.ltb y x = false.
Proof. rewrite !ltb_spec. apply SFltb_asym. Qed.

Context {K : Kernel}.

(** X13. [ellipse_curve] takes its two radii in either order: when the
    second radius is the greater one, the call is the call with the
    radii exchanged and the rotation increased by 90 degrees, whatever
    the other arguments are, also when it raises. *)
Theorem ellipse_curve_radii_exchanged
    (major_radius minor_radius start_angle end_angle : float)
    (clockwise : bool) (rotation : float) (center normal : VecLike) :
  PrimFloat.ltb major_radius minor_radius = true →
  ellipse_curve major_radius minor_radius start_angle end_angle
    clockwise rotation center normal
  = ellipse_curve minor_radius major_radius start_angle end_angle
      clockwise (rotation + 90)%float center normal.
Proof.
  intros Hlt. unfold ellipse_curve.
  by rewrite Hlt, (ltb_asym _ _ Hlt).
Qed.

Lemma as_Vec_Ok_xor_bad_tuple (c : VecLike) :
  let bad := ∃ t, c = of_tuple t ∧ length t ≠ 2 ∧ length t ≠ 3 in
  ((∃ v, as_Vec c = Ok v) ∧ ¬ bad) ∨ (bad ∧ raises (as_Vec c)).
Proof.
  intros bad. subst bad.
  destruct c as [q|q|q|q|t];
    try (left; split; [by eexists|by intros (t & [=] & _)]).
  destruct t as [|x [|y [|z [|w t]]]]; simpl;
    try (left; split;
         [by eexists|intros (t' & [= <-] & H2 & H3); simpl in *; lia]);
    right;
    (split; [eexists; (split; [done|simpl; lia])|apply raises_Raise]).
Qed.

(** X14. [circle_curve] and [ellipse_curve] coerce the normal first
    and the center last. What [as_Dir] raises on the normal is what they
    raise, whatever the other arguments are; they raise on every center
    that is a tuple whose length is neither 2 nor 3, whatever the other
    arguments are (what the kernel raises on the radii and the angles
    comes before the [ValueError] of the center); and the curve that
    they return is a curve of the kernel moved by the center, coerced to
    a vector. *)
Theorem conic_curves_raise_on_bad_normal_or_center
    (radius major_radius minor_radius start_angle end_angle : float)
    (clockwise : bool) (rotation : float) (center normal : VecLike) :
  let circle :=
    circle_curve radius start_angle end_angle clockwise center normal in
  let ellipse :=
    ellipse_curve major_radius minor_radius start_angle end_angle
      clockwise rotation center normal in
  let bad_center :=
    ∃ t, center = of_tuple t ∧ length t ≠ 2 ∧ length t ≠ 3 in
  (∀ e, as_Dir gp_Dir_new normal = Raise e →
        circle = Raise e ∧ ellipse = Raise e) ∧
  (bad_center → raises circle ∧ raises ellipse) ∧
  (∀ curve, circle = Ok curve ∨ ellipse = Ok curve →
     ∃ direction translation made,
       as_Dir gp_Dir_new normal = Ok direction ∧
       as_Vec center = Ok translation ∧
       curve = Translated made translation).
Proof.
  intros circle ellipse bad_center.
  subst circle ellipse. unfold circle_curve, ellipse_curve.
  destruct (PrimFloat.ltb major_radius minor_radius);
    (destruct (as_Dir gp_Dir_new normal) as [direction|e0]; cbn;
     [|split_and!;
       [by intros e [= ->]
       |intros _; split; apply raises_Raise
       |by intros curve [|]]]);
    destruct (gp_Circ_new _ _) as [circle_gp|e1];
    destruct (gp_Elips_new _ _ _) as [ellipse_gp|e2]; cbn;
    destruct (PrimFloat.eqb start_angle end_angle);
    try destruct (GC_MakeCircle _) as [c1|e3];
    try destruct (GC_MakeArcOfCircle _ _ _ _) as [c1|e3];
    try destruct (GC_MakeEllipse _) as [c2|e4];
    try destruct (GC_MakeArcOfEllipse _ _ _ _) as [c2|e4]; cbn;
    destruct (as_Vec_Ok_xor_bad_tuple center)
      as [[[v ->] Hgood]|[Hbad [e5 ->]]]; cbn;
    (split_and!;
     [done
     |intros ?; (done || (split; apply raises_Raise))
     |intros curve [[= <-]|[= <-]]; by eexists _, _, _]).
Qed.

End ConicFacts.

Section ConicWitnesses.
Import Coerce Conics.

Lemma ellipse_curve_radii_exchanged_witness :
  PrimFloat.ltb 1 2 = true ∧
  ellipse_curve (K := TermKernel.kernel) 1 2 0 90 false 30
    (of_tuple [5; 5]%float) (of_Dir (Dir 0 0 1))
  = ellipse_curve (K := TermKernel.kernel) 2 1 0 90 false (30 + 90)%float
      (of_tuple [5; 5]%float) (of_Dir (Dir 0 0 1)).
Proof.
  split; [reflexivity|].
  apply ellipse_curve_radii_exchanged. reflexivity.
Defined.

End ConicWitnesses.
